(** * compile-packages.mjs: the monorepo build script, embedded and verified

    The script discovers the workspace packages, orders them, and for each
    one either skips it (custom build) or copies the shared files, globs the
    entry points and calls the bundler twice and the declaration emitter
    once.  Everything the script does itself is embedded below as functions
    over an explicit [World] (file store plus chronological event trace) in
    a small state-and-exception monad.  The libraries it calls (path, fs,
    fast-glob, lerna, esbuild, typescript) are the fields of the [Host]
    class. *)

From Stdlib Require Import Ascii.
From stdpp Require Import base list strings gmap pretty.

Set Warnings "-register-all".

(** ** JavaScript values *)

(** The values the script inspects: parsed command-line options, manifest
    fields, the error handed to a rebuild hook. *)
Inductive jsval : Type :=
  | JUndefined
  | JNull
  | JBool (b : bool)
  | JNum (n : Z)
  | JStr (s : string)
  | JArr (xs : list jsval)
  | JObj (fields : list (string * jsval)).

(** ToBoolean, as used by [if (...)] and [&&]. *)
Definition truthy (v : jsval) : bool :=
  match v with
  | JUndefined | JNull => false
  | JBool b => b
  | JNum n => negb (n =? 0)%Z
  | JStr s => negb (String.eqb s EmptyString)
  | JArr _ | JObj _ => true
  end.

Fixpoint assoc (k : string) (fields : list (string * jsval)) : jsval :=
  match fields with
  | [] => JUndefined
  | (k', v) :: rest => if String.eqb k k' then v else assoc k rest
  end.

(** [v.k] on a value that is not null or undefined. *)
Definition js_get (v : jsval) (k : string) : jsval :=
  match v with
  | JObj fields => assoc k fields
  | _ => JUndefined
  end.

(** [v?.k] *)
Definition js_optget (v : jsval) (k : string) : jsval :=
  match v with
  | JUndefined | JNull => JUndefined
  | _ => js_get v k
  end.

(** [a && b] *)
Definition js_and {A} (a : jsval) (l : jsval -> A) (r : A) : A :=
  if truthy a then r else l a.

(** [s.replace(/\\/g, '/')] *)
Fixpoint replace_backslashes (s : string) : string :=
  match s with
  | EmptyString => EmptyString
  | String c rest =>
      String (if Ascii.eqb c "\"%char then "/"%char else c)
             (replace_backslashes rest)
  end.

(** The string literal written [\n] in the script. *)
Definition newline : string := String (Ascii.ascii_of_nat 10) EmptyString.

(** ** Data of the script *)

Definition path := string.
Definition content := string.

(** A lerna package object: [pkg.name], [pkg.location], [pkg.private],
    [pkg.toJSON()] and the names the manifest declares as dependencies. *)
Record Package : Type := mkPackage {
  pkg_name : string;
  location : path;
  private : bool;
  toJSON : jsval;
  dependencies : list string
}.

Definition depends (A B : Package) : Prop := pkg_name B ∈ dependencies A.

Inductive exn : Type :=
  | DiscoveryError
  | FilterError
  | CycleError
  | ENOENT (syscall : string) (src dest : path).

(** The options object literal passed to [ts.createProgram]. *)
Record CompilerOptions : Type := mkCompilerOptions {
  declaration : bool;
  emitDeclarationOnly : bool;
  skipLibCheck : bool;
  module_ : string;
  target : string;
  outDir : path;
  downlevelIteration : bool;
  esModuleInterop : bool;
  experimentalDecorators : bool
}.

Record Program : Type := mkProgram {
  rootNames : list path;
  options : CompilerOptions
}.

Record SourceFile : Type := mkSourceFile {
  fileName : string;
  text : string
}.

Inductive MessageText : Type :=
  | MessageString (s : string)
  | MessageChain (head : string) (next : list MessageText).

Record Diagnostic : Type := mkDiagnostic {
  file : option SourceFile;
  start : nat;
  messageText : MessageText
}.

(** The environment captured by the [onRebuild] closure. *)
Record RebuildHook : Type := mkRebuildHook {
  hook_pkgJSON : jsval;
  hook_entryPoints : list path;
  hook_outdir : path
}.

(** The value of the [watch] key: either the raw [argv.watch], or the object
    literal holding [onRebuild]. *)
Inductive WatchOption : Type :=
  | WatchValue (v : jsval)
  | WatchHooks (hook : RebuildHook).

(** The options object literal passed to [esbuild.build]. *)
Record BuildOptions : Type := mkBuildOptions {
  entryPoints : list path;
  outdir : path;
  format : string;
  sourcemap : string;
  platform : string;
  outExtension : option (list (string * string));
  watch : WatchOption
}.

(** What a script can do to the outside, in the order it does it.  A call of
    [esbuild.build] only issues the build: it returns a promise at once.
    [PromiseHandled n] stands for attaching a handler ([await], [then],
    [catch]) to the promise of the [n]-th build issued so far, counted from
    0. *)
Inductive Event : Type :=
  | ConsoleLog (args : list jsval)
  | ConsoleError (err : jsval)
  | CopyFileSync (src dest : path)
  | EsbuildBuild (opts : BuildOptions)
  | PromiseHandled (build : nat)
  | TsCreateProgram (p : Program)
  | TsEmit (p : Program).

(** The store holds the files the script itself reads and writes; what the
    bundler and the emitter write under [outdir] is theirs and is recorded as
    the event that asked for it. *)
Record World : Type := mkWorld {
  fs : gmap path content;
  events : list Event
}.

(** ** The libraries the script calls *)

Class Host : Type := mkHost {
  (** [__dirname], the directory of the script: the workspace root *)
  __dirname : path;
  path_join : path -> path -> path;
  path_resolve : list path -> path;
  path_relative : path -> path -> path;
  (** how the [fs] module resolves a path argument against the working
      directory *)
  cwd_resolve : path -> path;
  glob_sync : gmap path content -> string -> list path;
  getPackages : gmap path content -> path -> exn + list Package;
  (** the glob matcher behind the [scope] and [ignore] filters:
      pattern, then package name *)
  glob_matches : string -> string -> bool;
  filterPackages :
    list Package -> jsval -> jsval -> bool -> exn + list Package;
  batchPackages : list Package -> exn + list (list Package);
  (** [program.emit().diagnostics] *)
  ts_emit : gmap path content -> Program -> list Diagnostic;
  ts_getPreEmitDiagnostics : gmap path content -> Program -> list Diagnostic;
  ts_getLineAndCharacterOfPosition : SourceFile -> nat -> nat * nat;
  ts_flattenDiagnosticMessageText : MessageText -> string -> string
}.

(** ** State and exceptions *)

Definition M (A : Type) : Type := World -> World * (exn + A).

Definition ret {A} (a : A) : M A := fun w => (w, inr a).

Definition throw {A} (e : exn) : M A := fun w => (w, inl e).

Definition bind {A B} (m : M A) (k : A -> M B) : M B :=
  fun w =>
    match m w with
    | (w', inl e) => (w', inl e)
    | (w', inr a) => k a w'
    end.

Declare Scope script_scope.
Delimit Scope script_scope with script.
Notation "x <- c1 ;; c2" := (bind c1 (fun x => c2))
  (at level 100, c1 at next level, right associativity) : script_scope.
Notation "c1 ;; c2" := (bind c1 (fun _ => c2))
  (at level 100, right associativity) : script_scope.
Open Scope script_scope.

Definition lift {A} (r : exn + A) : M A := fun w => (w, r).

Definition emit_event (e : Event) : M unit :=
  fun w => (mkWorld (fs w) (events w ++ [e]), inr tt).

Definition read_fs : M (gmap path content) := fun w => (w, inr (fs w)).

(** [packages.map(callback)]: the callback runs on each element in order; an
    exception thrown by one call leaves the loop. *)
Fixpoint array_map {A B} (f : A -> M B) (l : list A) : M (list B) :=
  match l with
  | [] => ret []
  | x :: rest =>
      y <- f x ;;
      ys <- array_map f rest ;;
      ret (y :: ys)
  end.

Section Script.
Context `{Host}.

(** ** Console and file system *)

Definition console_log (args : list jsval) : M unit :=
  emit_event (ConsoleLog args).

Definition console_error (err : jsval) : M unit :=
  emit_event (ConsoleError err).

Definition existsSync (p : path) : M bool :=
  fun w => (w, inr (bool_decide (is_Some (fs w !! cwd_resolve p)))).

(** [fs.copyFileSync(src, dest)]: throws when [src] does not exist,
    otherwise creates or overwrites [dest].  Of the ways the call can fail
    only the missing source is modelled; a destination that cannot be
    written (its directory missing, a directory in its place) is outside the
    store, so what is stated of a run that returns normally is stated under
    that condition. *)
Definition copyFileSync (src dest : path) : M unit :=
  fun w =>
    match fs w !! cwd_resolve src with
    | None => (w, inl (ENOENT "copyfile" src dest))
    | Some c =>
        (mkWorld (<[cwd_resolve dest := c]> (fs w))
                 (events w ++ [CopyFileSync src dest]), inr tt)
    end.

Definition esbuild_build (opts : BuildOptions) : M unit :=
  emit_event (EsbuildBuild opts).

(** ** getSortedPackages *)

(** [batches.reduce((arr, batch) => arr.concat(batch), [])] *)
Definition flatten (batches : list (list Package)) : list Package :=
  foldl (fun arr batch => arr ++ batch) [] batches.

Definition getSortedPackages (scope ignore : jsval) : M (list Package) :=
  files <- read_fs ;;
  packages <- lift (getPackages files __dirname) ;;
  filtered <- lift (filterPackages packages scope ignore false) ;;
  batches <- lift (batchPackages filtered) ;;
  ret (flatten batches).

(** *** The contracts of the two lerna calls

    Neither [filterPackages] nor [batchPackages] is part of the sources; the
    spec gives their contracts (sections 4.2 and 6), stated here over the
    [Host] fields. *)

(** A [scope] or [ignore] option as a list of patterns: absent, one string,
    or an array of strings. *)
Definition arrify (v : jsval) : list string :=
  match v with
  | JStr s => [s]
  | JArr xs =>
      omap (fun x => match x with JStr s => Some s | _ => None end) xs
  | _ => []
  end.

Definition matches_b (patterns : jsval) (p : Package) : bool :=
  existsb (fun pat => glob_matches pat (pkg_name p)) (arrify patterns).

(** "matches [scope] (or no [scope] given)" *)
Definition in_scope_b (scope : jsval) (p : Package) : bool :=
  match arrify scope with
  | [] => true
  | _ => matches_b scope p
  end.

Definition kept_b (scope ignore : jsval) (showPrivate : bool) (p : Package)
    : bool :=
  in_scope_b scope p && negb (matches_b ignore p) &&
  (showPrivate || negb (private p)).

(** Modelled from the spec: [filterPackages] of [@lerna/filter-packages] is
    not part of the sources.  "keep a package iff it matches scope (or no
    scope given) AND does not match ignore; explicitly exclude packages
    marked private"; the last argument is [includePrivate]. *)
Definition filter_contract : Prop :=
  ∀ pkgs scope ignore showPrivate out,
    filterPackages pkgs scope ignore showPrivate = inr out →
    ∀ p, p ∈ out ↔ p ∈ pkgs ∧ kept_b scope ignore showPrivate p = true.

(** Modelled from the spec: [batchPackages] of [@lerna/batch-packages] is
    not part of the sources.  "partition the filtered set into
    dependency-ordered batches": the batches together are the input. *)
Definition batch_partition_contract : Prop :=
  ∀ input batches,
    batchPackages input = inr batches → concat batches ≡ₚ input.

(** "every package in batch k depends only on packages in batches < k" *)
Definition batches_ordered (batches : list (list Package)) : Prop :=
  ∀ k batch A B,
    batches !! k = Some batch → A ∈ batch →
    B ∈ concat batches → depends A B →
    ∃ k' batch', k' < k ∧ batches !! k' = Some batch' ∧ B ∈ batch'.

(** Modelled from the spec: the ordering half of the contract of
    [batchPackages], for every input it accepts. *)
Definition batch_order_contract : Prop :=
  ∀ input batches,
    batchPackages input = inr batches → batches_ordered batches.

(** The property the Ordered Package Sequence is to have: whenever [A] sits
    at position [i] and depends on a [B] of the sequence, [B] sits at some
    position [j <= i]. *)
Definition dependency_ordered (out : list Package) : Prop :=
  ∀ i A B,
    out !! i = Some A → B ∈ out → depends A B →
    ∃ j, j ≤ i ∧ out !! j = Some B.

(** ** The body of main *)

(** [allDiagnostics.forEach(callback)] *)
Fixpoint array_forEach {A} (f : A -> M unit) (l : list A) : M unit :=
  match l with
  | [] => ret tt
  | x :: rest => f x ;; array_forEach f rest
  end.

(** The line printed for one diagnostic. *)
Definition diagnostic_line (diagnostic : Diagnostic) : string :=
  match file diagnostic with
  | Some f =>
      let '(line, character) :=
        ts_getLineAndCharacterOfPosition f (start diagnostic) in
      let message :=
        ts_flattenDiagnosticMessageText (messageText diagnostic) newline in
      fileName f +:+ " (" +:+ pretty (line + 1) +:+ "," +:+
        pretty (character + 1) +:+ "): " +:+ message
  | None => ts_flattenDiagnosticMessageText (messageText diagnostic) newline
  end.

Definition declaration_options (outdir : path) : CompilerOptions :=
  {| declaration := true;
     emitDeclarationOnly := true;
     skipLibCheck := true;
     module_ := "commonjs";
     target := "es2015";
     outDir := outdir;
     downlevelIteration := true;
     esModuleInterop := true;
     experimentalDecorators := true |}.

(** The closure [emitTSDeclaration], with the variables it captures as
    arguments. *)
Definition emitTSDeclaration
    (pkgJSON : jsval) (entryPoints : list path) (outdir : path) : M unit :=
  console_log [JStr "Generating .d.ts files for..."; js_get pkgJSON "name"] ;;
  let program := mkProgram entryPoints (declaration_options outdir) in
  emit_event (TsCreateProgram program) ;;
  files <- read_fs ;;
  let emitResult := ts_emit files program in
  emit_event (TsEmit program) ;;
  let allDiagnostics := ts_getPreEmitDiagnostics files program ++ emitResult in
  array_forEach
    (fun diagnostic => console_log [JStr (diagnostic_line diagnostic)])
    allDiagnostics.

(** The method [onRebuild(err, result)] of the watch object. *)
Definition onRebuild (h : RebuildHook) (err : jsval) : M unit :=
  if truthy err then console_error err
  else emitTSDeclaration (hook_pkgJSON h) (hook_entryPoints h) (hook_outdir h).

(** The callback of [packages.map] in main. *)
Definition build_package (argv : jsval) (pkg : Package) : M unit :=
  let basePath := path_relative __dirname (location pkg) in
  let pkgJSON := toJSON pkg in
  if truthy (js_optget (js_get pkgJSON "scripts") "build") then
    console_log
      [js_get pkgJSON "name"; JStr "has custom build! skipping default build."]
  else
    readme <- existsSync (path_join basePath "README.md") ;;
    (if negb readme then
       copyFileSync (path_resolve [__dirname; "README.md"])
                    (path_join basePath "README.md") ;;
       copyFileSync (path_resolve [__dirname; "LICENSE"])
                    (path_join basePath "LICENSE")
     else ret tt) ;;
    files <- read_fs ;;
    let entryPoints :=
      glob_sync files
        (replace_backslashes (path_resolve [basePath; "src"; "**"; "**.ts"])) in
    let outdir := path_join basePath "build" in
    esbuild_build
      {| entryPoints := entryPoints;
         outdir := outdir;
         format := "cjs";
         sourcemap := "external";
         platform := "node";
         outExtension := None;
         watch := WatchValue (js_get argv "watch") |} ;;
    esbuild_build
      {| entryPoints := entryPoints;
         outdir := outdir;
         format := "esm";
         sourcemap := "external";
         platform := "node";
         outExtension := Some [(".js", ".mjs")];
         watch :=
           js_and (js_get argv "watch") WatchValue
             (WatchHooks (mkRebuildHook pkgJSON entryPoints outdir)) |} ;;
    emitTSDeclaration pkgJSON entryPoints outdir.

Definition main (argv : jsval) : M unit :=
  console_log [JStr "ARGV:"; argv] ;;
  packages <- getSortedPackages (js_get argv "scope") (js_get argv "ignore") ;;
  configs <- array_map (build_package argv) packages ;;
  ret tt.

(** ** Vocabulary for the properties

    Names for the parts of [build_package] and for what it is expected to
    leave in the trace; [build_package_unskipped] below shows that the
    callback is the two parts in sequence. *)

(** [pkgJSON.scripts?.build] is truthy. *)
Definition skipped (pkg : Package) : bool :=
  truthy (js_optget (js_get (toJSON pkg) "scripts") "build").

Definition base_path (pkg : Package) : path :=
  path_relative __dirname (location pkg).

(** The files the copy step reads and writes, as the store names them. *)
Definition root_readme : path :=
  cwd_resolve (path_resolve [__dirname; "README.md"]).
Definition root_license : path :=
  cwd_resolve (path_resolve [__dirname; "LICENSE"]).
Definition readme_key (pkg : Package) : path :=
  cwd_resolve (path_join (base_path pkg) "README.md").
Definition license_key (pkg : Package) : path :=
  cwd_resolve (path_join (base_path pkg) "LICENSE").

(** The statement under "Copy README.md and LICENSE into child package
    folder". *)
Definition copy_shared_files (basePath : path) : M unit :=
  readme <- existsSync (path_join basePath "README.md") ;;
  if negb readme then
    copyFileSync (path_resolve [__dirname; "README.md"])
                 (path_join basePath "README.md") ;;
    copyFileSync (path_resolve [__dirname; "LICENSE"])
                 (path_join basePath "LICENSE")
  else ret tt.

(** The glob handed to [glob.sync]. *)
Definition entry_pattern (basePath : path) : string :=
  replace_backslashes (path_resolve [basePath; "src"; "**"; "**.ts"]).

Definition cjs_options (argv : jsval) (eps : list path) (out : path)
    : BuildOptions :=
  {| entryPoints := eps;
     outdir := out;
     format := "cjs";
     sourcemap := "external";
     platform := "node";
     outExtension := None;
     watch := WatchValue (js_get argv "watch") |}.

Definition esm_options
    (argv pkgJSON : jsval) (eps : list path) (out : path) : BuildOptions :=
  {| entryPoints := eps;
     outdir := out;
     format := "esm";
     sourcemap := "external";
     platform := "node";
     outExtension := Some [(".js", ".mjs")];
     watch :=
       js_and (js_get argv "watch") WatchValue
         (WatchHooks (mkRebuildHook pkgJSON eps out)) |}.

(** The events of one call of [emitTSDeclaration]: the announcement, the
    program, the emission, then one line per diagnostic, the pre-emit ones
    first. *)
Definition declaration_trace
    (pkgJSON : jsval) (eps : list path) (out : path)
    (files : gmap path content) : list Event :=
  let program := mkProgram eps (declaration_options out) in
  [ConsoleLog [JStr "Generating .d.ts files for..."; js_get pkgJSON "name"];
   TsCreateProgram program;
   TsEmit program] ++
  map (fun d => ConsoleLog [JStr (diagnostic_line d)])
      (ts_getPreEmitDiagnostics files program ++ ts_emit files program).

(** The rest of the callback, from "Get all .ts as input files" on. *)
Definition bundle_and_emit (argv pkgJSON : jsval) (basePath : path) : M unit :=
  files <- read_fs ;;
  let eps := glob_sync files (entry_pattern basePath) in
  let out := path_join basePath "build" in
  esbuild_build (cjs_options argv eps out) ;;
  esbuild_build (esm_options argv pkgJSON eps out) ;;
  emitTSDeclaration pkgJSON eps out.

(** The events [bundle_and_emit] is expected to add over the store
    [files]. *)
Definition build_trace
    (argv pkgJSON : jsval) (basePath : path) (files : gmap path content)
    : list Event :=
  let eps := glob_sync files (entry_pattern basePath) in
  let out := path_join basePath "build" in
  [EsbuildBuild (cjs_options argv eps out);
   EsbuildBuild (esm_options argv pkgJSON eps out)] ++
  declaration_trace pkgJSON eps out files.

Definition shared_keys (pkg : Package) : list path :=
  [readme_key pkg; license_key pkg].

(** The two copies of the copy step, as events. *)
Definition shared_copies (pkg : Package) : list Event :=
  [CopyFileSync (path_resolve [__dirname; "README.md"])
                (path_join (base_path pkg) "README.md");
   CopyFileSync (path_resolve [__dirname; "LICENSE"])
                (path_join (base_path pkg) "LICENSE")].

(** The callback copies something for [pkg] when started in [w]. *)
Definition copies_something (argv : jsval) (pkg : Package) (w : World) : Prop :=
  ∃ src dest,
    CopyFileSync src dest
    ∈ drop (length (events w)) (events (build_package argv pkg w).1).

(** The world in which the packages are processed: the options have been
    printed. *)
Definition after_argv_log (argv : jsval) (w : World) : World :=
  mkWorld (fs w) (events w ++ [ConsoleLog [JStr "ARGV:"; argv]]).

Definition is_copy (e : Event) : bool :=
  match e with
  | CopyFileSync _ _ => true
  | _ => false
  end.

End Script.

(** ** Promises and their handlers

    The runtime's view of a trace: every [EsbuildBuild] creates a promise
    without handler, [PromiseHandled n] gives the [n]-th promise one.  The
    promises settle after the synchronous work of the script; a promise
    that rejects without a handler is reported as an unhandled rejection,
    with the rejection reason. *)

Inductive Settlement : Type :=
  | Fulfilled
  | Rejected (reason : jsval).

Record Promise : Type := mkPromise {
  request : BuildOptions;
  handled : bool
}.

Definition mark_handled (n : nat) (ps : list Promise) : list Promise :=
  alter (fun p => mkPromise (request p) true) n ps.

Definition promise_step (ps : list Promise) (e : Event) : list Promise :=
  match e with
  | EsbuildBuild opts => ps ++ [mkPromise opts false]
  | PromiseHandled n => mark_handled n ps
  | _ => ps
  end.

Definition promises_of (trace : list Event) : list Promise :=
  foldl promise_step [] trace.

Definition rejection (settle : BuildOptions -> Settlement) (p : Promise)
    : option jsval :=
  match settle (request p) with
  | Rejected reason => if handled p then None else Some reason
  | Fulfilled => None
  end.

(** The unhandled rejections a trace leads to, given how each issued build
    settles. *)
Definition unhandled_rejections
    (settle : BuildOptions -> Settlement) (trace : list Event) : list jsval :=
  omap (rejection settle) (promises_of trace).

Definition is_handler (e : Event) : bool :=
  match e with
  | PromiseHandled _ => true
  | _ => false
  end.

Definition is_console_error (e : Event) : bool :=
  match e with
  | ConsoleError _ => true
  | _ => false
  end.

(** The builds a trace issues, in order. *)
Definition builds_of (trace : list Event) : list BuildOptions :=
  omap (fun e => match e with EsbuildBuild opts => Some opts | _ => None end)
       trace.

(** ** Vocabulary for whole runs *)

Section RunVocabulary.
Context `{Host}.

(** The line printed for a package with a build of its own. *)
Definition skip_notice (pkg : Package) : Event :=
  ConsoleLog [js_get (toJSON pkg) "name";
              JStr "has custom build! skipping default build."].

(** The packages the callback does not skip, in order. *)
Definition unskipped (pkgs : list Package) : list Package :=
  filter (fun p => skipped p = false) pkgs.

(** A package together with the entry points found for it. *)
Definition Job : Type := Package * list path.

Definition job_outdir (job : Job) : path :=
  path_join (base_path job.1) "build".

Definition job_builds (argv : jsval) (job : Job) : list BuildOptions :=
  [cjs_options argv job.2 (job_outdir job);
   esm_options argv (toJSON job.1) job.2 (job_outdir job)].

Definition job_program (job : Job) : Program :=
  mkProgram job.2 (declaration_options (job_outdir job)).

(** The programs a trace emits, in order. *)
Definition emitted_programs (trace : list Event) : list Program :=
  omap (fun e => match e with TsEmit p => Some p | _ => None end) trace.

(** Neither a promise handler nor a line on the error console. *)
Definition is_quiet (e : Event) : bool :=
  negb (is_handler e) && negb (is_console_error e).

(** The two exceptions the copy step can raise for a package. *)
Definition readme_enoent (pkg : Package) : exn :=
  ENOENT "copyfile" (path_resolve [__dirname; "README.md"])
         (path_join (base_path pkg) "README.md").
Definition license_enoent (pkg : Package) : exn :=
  ENOENT "copyfile" (path_resolve [__dirname; "LICENSE"])
         (path_join (base_path pkg) "LICENSE").

(** The callback reaches the copy of README.md for [pkg] when started in
    [w]: the copy is among the events it adds, or it is the copy that
    threw. *)
Definition copy_entered (argv : jsval) (pkg : Package) (w : World) : Prop :=
  CopyFileSync (path_resolve [__dirname; "README.md"])
               (path_join (base_path pkg) "README.md")
  ∈ drop (length (events w)) (events (build_package argv pkg w).1)
  ∨ (build_package argv pkg w).2 = inl (readme_enoent pkg).

(** What a trace prints on the error console, in order. *)
Definition printed_errors (trace : list Event) : list jsval :=
  omap (fun e => match e with ConsoleError err => Some err | _ => None end)
       trace.

(** The two shapes of options the callback builds with: a CommonJS build
    carries the raw [watch] option and no extension map; an ES-module build
    maps [.js] to [.mjs] and carries a hook over its own entry points and
    output directory when [argv.watch] is truthy, the raw option
    otherwise. *)
Definition build_shape (argv : jsval) (o : BuildOptions) : Prop :=
  sourcemap o = "external" ∧ platform o = "node" ∧
  ((format o = "cjs" ∧ outExtension o = None ∧
    watch o = WatchValue (js_get argv "watch"))
   ∨ (format o = "esm" ∧ outExtension o = Some [(".js", ".mjs")] ∧
      if truthy (js_get argv "watch")
      then ∃ pkgJSON,
             watch o
             = WatchHooks (mkRebuildHook pkgJSON (entryPoints o) (outdir o))
      else watch o = WatchValue (js_get argv "watch"))).

(** Whether a string holds a backslash. *)
Fixpoint has_backslash (s : string) : bool :=
  match s with
  | EmptyString => false
  | String c rest => Ascii.eqb c "\"%char || has_backslash rest
  end.

End RunVocabulary.

(** ** A reference host

    A POSIX [path] for normalised arguments, a small glob, and the two lerna
    calls as the spec describes them.  The theorems below hold for every
    [Host]; this one serves to run the script on concrete workspaces. *)

Module Reference.

(** The script is started from the workspace root. *)
Definition root : path := "/repo".

Definition is_absolute (p : path) : bool := String.prefix "/" p.

Definition posix_join (a b : path) : path :=
  if String.eqb a EmptyString then b else a +:+ "/" +:+ b.

(** [path.resolve(...segments)]: a later absolute segment restarts the
    path, empty segments are skipped, and the working directory is the
    base. *)
Definition posix_resolve (segments : list path) : path :=
  foldl (fun acc seg =>
           if String.eqb seg EmptyString then acc
           else if is_absolute seg then seg
           else acc +:+ "/" +:+ seg)
        root segments.

Fixpoint split_slash (cur : string) (s : string) : list string :=
  match s with
  | EmptyString => [cur]
  | String c rest =>
      if Ascii.eqb c "/"%char then cur :: split_slash EmptyString rest
      else split_slash (cur +:+ String c EmptyString) rest
  end.

Fixpoint drop_common (xs ys : list string) : list string * list string :=
  match xs, ys with
  | x :: xs', y :: ys' =>
      if String.eqb x y then drop_common xs' ys' else (xs, ys)
  | _, _ => (xs, ys)
  end.

Fixpoint join_slash (segs : list string) : string :=
  match segs with
  | [] => EmptyString
  | [x] => x
  | x :: rest => x +:+ "/" +:+ join_slash rest
  end.

(** [path.relative(from, to)] on absolute normalised paths. *)
Definition posix_relative (from to : path) : path :=
  let '(up, down) :=
    drop_common (split_slash EmptyString from) (split_slash EmptyString to) in
  join_slash (map (fun _ => "..") up ++ down).

Definition ends_with (suffix s : string) : bool :=
  String.eqb
    (String.substring (String.length s - String.length suffix)
                      (String.length suffix) s)
    suffix
  && (String.length suffix <=? String.length s).

(** The directory part of a pattern [<dir>/**/**.ts]. *)
Definition glob_base (pattern : string) : string :=
  match String.index 0 "**" pattern with
  | Some n => String.substring 0 n pattern
  | None => pattern
  end.

Definition ref_glob_sync (files : gmap path content) (pattern : string)
    : list path :=
  filter (fun f => String.prefix (glob_base pattern) f = true
                   ∧ ends_with ".ts" f = true)
         (map fst (map_to_list files)).

(** A pattern in which [*] stands for any run of characters. *)
Fixpoint wildcard (pat : string) : string -> bool :=
  match pat with
  | EmptyString => fun s => String.eqb s EmptyString
  | String c pat' =>
      if Ascii.eqb c "*"%char then
        fix star (s : string) : bool :=
          wildcard pat' s ||
          match s with
          | EmptyString => false
          | String _ s' => star s'
          end
      else
        fun s =>
          match s with
          | EmptyString => false
          | String d s' => Ascii.eqb c d && wildcard pat' s'
          end
  end.

(** Modelled from the spec: [filterPackages] of [@lerna/filter-packages] is
    not part of the sources.  "keep a package iff it matches scope (or no
    scope given) AND does not match ignore; explicitly exclude packages
    marked private". *)
Definition ref_filterPackages
    (pkgs : list Package) (scope ignore : jsval) (showPrivate : bool)
    : exn + list Package :=
  inr (filter
         (fun p =>
            (match arrify scope with
             | [] => true
             | pats => existsb (fun pat => wildcard pat (pkg_name p)) pats
             end
             && negb (existsb (fun pat => wildcard pat (pkg_name p))
                              (arrify ignore))
             && (showPrivate || negb (private p))) = true)
         pkgs).

#[global] Instance depends_dec (A B : Package) : Decision (depends A B).
Proof. unfold depends. apply _. Defined.

(** A package none of whose dependencies is still in the graph. *)
Definition no_local_dependency (graph : list Package) (A : Package) : Prop :=
  Forall (fun B => ¬ depends A B) graph.

#[global] Instance no_local_dependency_dec graph A :
  Decision (no_local_dependency graph A).
Proof. unfold no_local_dependency. apply _. Defined.

(** Modelled from the spec: [batchPackages] of [@lerna/batch-packages] is
    not part of the sources.  "partition the filtered set into
    dependency-ordered batches, where every package in batch k depends only
    on packages in batches < k"; "a package with a dependency cycle fails
    with a CycleError".  Each round takes the packages that depend on nothing
    left in the graph. *)
Fixpoint layers (fuel : nat) (graph : list Package)
    : exn + list (list Package) :=
  match graph, fuel with
  | [], _ => inr []
  | _ :: _, 0 => inl CycleError
  | _ :: _, S fuel' =>
      match filter (no_local_dependency graph) graph with
      | [] => inl CycleError
      | batch =>
          match layers fuel'
                  (filter (fun A => ¬ no_local_dependency graph A) graph) with
          | inl e => inl e
          | inr rest => inr (batch :: rest)
          end
      end
  end.

Definition ref_batchPackages (input : list Package)
    : exn + list (list Package) :=
  layers (length input) input.

Definition flatten_message (m : MessageText) : string :=
  match m with
  | MessageString s => s
  | MessageChain head _ => head
  end.

(** The host over a given workspace graph, with a type checker that reports
    the diagnostics it is given. *)
Definition host (workspace : list Package) (pre emitted : list Diagnostic)
    : Host :=
  {| __dirname := root;
     path_join := posix_join;
     path_resolve := posix_resolve;
     path_relative := posix_relative;
     cwd_resolve := fun p => posix_resolve [p];
     glob_sync := ref_glob_sync;
     getPackages := fun _ _ => inr workspace;
     glob_matches := wildcard;
     filterPackages := ref_filterPackages;
     batchPackages := ref_batchPackages;
     ts_emit := fun _ _ => emitted;
     ts_getPreEmitDiagnostics := fun _ _ => pre;
     ts_getLineAndCharacterOfPosition := fun _ pos => (0, pos);
     ts_flattenDiagnosticMessageText := fun m _ => flatten_message m |}.

(** A workspace of three packages: [core] has no dependency, [driver]
    depends on [core] and declares its own build, [server] depends on
    both. *)
Definition core : Package :=
  mkPackage "core" "/repo/packages/core" false
    (JObj [("name", JStr "core")]) [].

Definition driver : Package :=
  mkPackage "driver" "/repo/packages/driver" false
    (JObj [("name", JStr "driver");
           ("scripts", JObj [("build", JStr "tsc")])])
    ["core"].

Definition server : Package :=
  mkPackage "server" "/repo/packages/server" false
    (JObj [("name", JStr "server"); ("scripts", JObj [("test", JStr "mocha")])])
    ["driver"; "core"].

Definition secret : Package :=
  mkPackage "secret" "/repo/packages/secret" true
    (JObj [("name", JStr "secret")]) [].

Definition workspace : list Package := [server; secret; driver; core].

Definition files0 : gmap path content :=
  list_to_map
    [("/repo/README.md", "# colyseus");
     ("/repo/LICENSE", "MIT");
     ("/repo/packages/core/src/index.ts", "export {}");
     ("/repo/packages/core/src/util/id.ts", "export {}");
     ("/repo/packages/core/package.json", "{}")].

Definition world0 : World := mkWorld files0 [].

Definition h0 : Host := host workspace [] [].





(** Two packages that depend on each other. *)
Definition ping : Package :=
  mkPackage "ping" "/repo/packages/ping" false
    (JObj [("name", JStr "ping")]) ["pong"].

Definition pong : Package :=
  mkPackage "pong" "/repo/packages/pong" false
    (JObj [("name", JStr "pong")]) ["ping"].

Definition h_cycle : Host := host [ping; pong] [] [].

(** A workspace in which every package has a build of its own. *)
Definition h_custom : Host := host [driver] [] [].

(** [core] ships a licence of its own and no README. *)
Definition world_own_license : World :=
  mkWorld (<["/repo/packages/core/LICENSE" := "Apache-2.0"]> files0) [].

(** Every package that is built has its README.md; the root has neither
    README.md nor LICENSE. *)
Definition world_readmes_only : World :=
  mkWorld
    (list_to_map
       [("/repo/packages/core/README.md", "# core");
        ("/repo/packages/server/README.md", "# server");
        ("/repo/packages/core/src/index.ts", "export {}")])
    [].

(** [core] has a README of its own and no LICENSE. *)
Definition world_own_readme : World :=
  mkWorld (<["/repo/packages/core/README.md" := "# core"]> files0) [].

Definition watching : jsval := JObj [("watch", JBool true)].

(** The root LICENSE is gone. *)
Definition world_no_license : World :=
  mkWorld (delete "/repo/LICENSE" files0) [].

End Reference.

(** * Properties *)

(** ** Lists of batches *)

Section Batches.
Context {A : Type}.
Implicit Types (bs : list (list A)) (b : list A).

(** Number of elements in the first [k] batches. *)
Definition offset (k : nat) bs : nat := length (concat (take k bs)).

Lemma offset_mono bs k1 k2 : k1 ≤ k2 → offset k1 bs ≤ offset k2 bs.
Proof.
  unfold offset. revert k1 k2.
  induction bs as [|b bs IH]; intros [|k1] [|k2] Hle; simpl; try lia.
  rewrite !length_app. specialize (IH k1 k2). lia.
Qed.

(** An element at position [i] of the flattening lies in some batch [k] that
    starts at or before [i]. *)
Lemma concat_lookup_batch bs i x :
  concat bs !! i = Some x →
  ∃ k b, bs !! k = Some b ∧ x ∈ b ∧ offset k bs ≤ i.
Proof.
  revert i. induction bs as [|b bs IH]; intros i Hi; simpl in Hi.
  - by rewrite lookup_nil in Hi.
  - apply lookup_app_Some in Hi as [Hi | [Hlen Hi]].
    + exists 0, b. split; [done|]. split.
      * apply list_elem_of_lookup. eauto.
      * unfold offset. simpl. lia.
    + destruct (IH _ Hi) as (k & b' & Hk & Hx & Hoff).
      exists (S k), b'. split; [done|]. split; [done|].
      unfold offset in *. simpl. rewrite length_app. lia.
Qed.

(** An element of batch [k] sits at a position before the end of batch
    [k]. *)
Lemma batch_lookup_concat bs k b x :
  bs !! k = Some b → x ∈ b →
  ∃ j, j < offset (S k) bs ∧ concat bs !! j = Some x.
Proof.
  revert k. induction bs as [|b0 bs IH]; intros k Hk Hx.
  - by rewrite lookup_nil in Hk.
  - destruct k as [|k]; simpl in Hk.
    + injection Hk as ->.
      apply list_elem_of_lookup in Hx as [m Hm].
      exists m. split.
      * unfold offset. simpl. rewrite length_app.
        apply lookup_lt_Some in Hm. lia.
      * simpl. by apply lookup_app_l_Some.
    + destruct (IH _ Hk Hx) as (j & Hj & Hlook).
      exists (length b0 + j). split.
      * unfold offset in *. simpl in *. rewrite length_app. lia.
      * simpl. rewrite lookup_app_r by lia.
        by replace (length b0 + j - length b0) with j by lia.
Qed.

Lemma foldl_concat bs acc :
  foldl (fun arr batch => arr ++ batch) acc bs = acc ++ concat bs.
Proof.
  revert acc. induction bs as [|b bs IH]; intros acc; simpl.
  - by rewrite app_nil_r.
  - by rewrite IH, app_assoc.
Qed.

End Batches.

Section ScriptProperties.
Context `{Host}.

Lemma flatten_concat batches : flatten batches = concat batches.
Proof. unfold flatten. by rewrite foldl_concat. Qed.

(** Batches in which dependencies only point to earlier batches flatten to
    a sequence in which every dependency comes strictly earlier. *)
Lemma flatten_ordered batches i A B :
  batches_ordered batches →
  flatten batches !! i = Some A → B ∈ flatten batches → depends A B →
  ∃ j, j < i ∧ flatten batches !! j = Some B.
Proof.
  rewrite flatten_concat. intros Hord Hi HB Hdep.
  destruct (concat_lookup_batch _ _ _ Hi) as (k & b & Hk & HA & Hoff).
  destruct (Hord k b A B Hk HA HB Hdep) as (k' & b' & Hlt & Hk' & HB').
  destruct (batch_lookup_concat _ _ _ _ Hk' HB') as (j & Hj & Hlook).
  exists j. split; [|done].
  pose proof (offset_mono batches (S k') k ltac:(lia)). lia.
Qed.

(** What a successful [getSortedPackages] has computed. *)
Lemma getSortedPackages_inr scope ignore w w' out :
  getSortedPackages scope ignore w = (w', inr out) →
  w' = w ∧
  ∃ packages filtered batches,
    getPackages (fs w) __dirname = inr packages ∧
    filterPackages packages scope ignore false = inr filtered ∧
    batchPackages filtered = inr batches ∧
    out = flatten batches.
Proof.
  unfold getSortedPackages, bind, read_fs, lift, ret.
  destruct (getPackages (fs w) __dirname) as [e|packages] eqn:Hp; [done|].
  destruct (filterPackages packages scope ignore false) as [e|filtered] eqn:Hf;
    [done|].
  destruct (batchPackages filtered) as [e|batches] eqn:Hb; [done|].
  intros [= <- <-]. split; [done|]. by exists packages, filtered, batches.
Qed.

(** C1: whenever [getSortedPackages] returns a sequence, the sequence is
    dependency-ordered: if [A] is at position [i] and depends on a package
    [B] of the sequence, then [B] is at some position at or before [i].  The
    batches come from [batchPackages], whose contract ("every package in
    batch k depends only on packages in batches < k") is the hypothesis. *)
Theorem getSortedPackages_dependency_ordered scope ignore w w' out :
  batch_order_contract →
  getSortedPackages scope ignore w = (w', inr out) →
  dependency_ordered out.
Proof.
  intros Hcontract Hrun.
  apply getSortedPackages_inr in Hrun
    as (_ & packages & filtered & batches & _ & _ & Hbatch & ->).
  intros i A B Hi HB Hdep.
  destruct (flatten_ordered batches i A B) as (j & Hj & Hlook); eauto.
  exists j. split; [lia | done].
Qed.

End ScriptProperties.

(** ** The reference host meets the contracts *)

Module ReferenceFacts.
Import Reference.

Lemma layers_sound fuel graph batches :
  layers fuel graph = inr batches →
  concat batches ≡ₚ graph ∧
  ∀ k batch A B,
    batches !! k = Some batch → A ∈ batch → B ∈ graph → depends A B →
    ∃ k' batch', k' < k ∧ batches !! k' = Some batch' ∧ B ∈ batch'.
Proof.
  revert graph batches.
  induction fuel as [|fuel IH]; intros [|p graph] batches Hrun;
    simpl in Hrun; try discriminate.
  - injection Hrun as <-. split; [done|]. intros k ? ? ? Hk.
    by rewrite lookup_nil in Hk.
  - injection Hrun as <-. split; [done|]. intros k ? ? ? Hk.
    by rewrite lookup_nil in Hk.
  - set (g := p :: graph) in *.
    destruct (filter (no_local_dependency g) g) as [|r ready] eqn:Hready;
      [discriminate|].
    destruct (layers fuel (filter (λ A, ¬ no_local_dependency g A) g))
      as [e|rest] eqn:Hrest; [discriminate|].
    injection Hrun as <-.
    destruct (IH _ _ Hrest) as [Hperm Hord]. split.
    + rewrite <- Hready, concat_cons, Hperm. apply filter_app_complement.
    + intros k batch A B Hk HA HB Hdep. destruct k as [|k]; simpl in Hk.
      * injection Hk as <-. rewrite <- Hready in HA.
        apply list_elem_of_filter in HA as [Hfree _].
        unfold no_local_dependency in Hfree.
        rewrite Forall_forall in Hfree. by destruct (Hfree B HB).
      * destruct (decide (no_local_dependency g B)) as [Hfree|Hbusy].
        -- exists 0, (r :: ready). split; [lia|]. split; [done|].
           rewrite <- Hready. by apply list_elem_of_filter.
        -- destruct (Hord k batch A B Hk HA) as (k' & b' & Hlt & Hk' & HB');
             [by apply list_elem_of_filter | done |].
           exists (S k'), b'. split; [lia|]. by split.
Qed.

Lemma ref_batch_order workspace pre emitted :
  @batch_order_contract (host workspace pre emitted).
Proof.
  intros input batches Hrun. simpl in Hrun.
  destruct (layers_sound _ _ _ Hrun) as [Hperm Hord].
  intros k batch A B Hk HA HB Hdep.
  apply (Hord k batch A B Hk HA); [|done]. by rewrite <- Hperm.
Qed.

Lemma ref_batch_partition workspace pre emitted :
  @batch_partition_contract (host workspace pre emitted).
Proof.
  intros input batches Hrun. simpl in Hrun.
  by destruct (layers_sound _ _ _ Hrun).
Qed.

Lemma ref_filter workspace pre emitted :
  @filter_contract (host workspace pre emitted).
Proof.
  intros pkgs scope ignore showPrivate out [= <-] p.
  rewrite list_elem_of_filter.
  unfold kept_b, in_scope_b, matches_b. simpl.
  destruct (arrify scope); tauto.
Qed.

End ReferenceFacts.


Section Callback.
Context `{Host}.

Lemma array_forEach_log (lines : list Diagnostic) w :
  array_forEach
    (fun d => console_log [JStr (diagnostic_line d)]) lines w
  = (mkWorld (fs w)
       (events w ++ map (fun d => ConsoleLog [JStr (diagnostic_line d)]) lines),
     inr tt).
Proof.
  revert w. induction lines as [|d lines IH]; intros [files evs]; simpl.
  - by rewrite app_nil_r.
  - unfold bind, console_log, emit_event. simpl.
    rewrite IH. simpl. by rewrite <- app_assoc.
Qed.

Lemma emitTSDeclaration_run pkgJSON eps out w :
  emitTSDeclaration pkgJSON eps out w
  = (mkWorld (fs w) (events w ++ declaration_trace pkgJSON eps out (fs w)),
     inr tt).
Proof.
  destruct w as [files evs].
  unfold emitTSDeclaration, declaration_trace, bind, console_log, emit_event,
    read_fs.
  simpl. rewrite array_forEach_log. simpl.
  by rewrite <- !app_assoc.
Qed.

Lemma bundle_and_emit_run argv pkgJSON basePath w :
  bundle_and_emit argv pkgJSON basePath w
  = (mkWorld (fs w) (events w ++ build_trace argv pkgJSON basePath (fs w)),
     inr tt).
Proof.
  destruct w as [files evs].
  unfold bundle_and_emit, build_trace, bind, read_fs, esbuild_build,
    emit_event.
  simpl. rewrite emitTSDeclaration_run. simpl.
  by rewrite <- !app_assoc.
Qed.

Lemma build_package_skipped argv pkg :
  skipped pkg = true →
  build_package argv pkg
  = console_log [js_get (toJSON pkg) "name";
                 JStr "has custom build! skipping default build."].
Proof. unfold build_package, skipped. by intros ->. Qed.

Lemma build_package_unskipped argv pkg :
  skipped pkg = false →
  build_package argv pkg
  = (copy_shared_files (base_path pkg) ;;
     bundle_and_emit argv (toJSON pkg) (base_path pkg)).
Proof. unfold build_package, skipped. by intros ->. Qed.

End Callback.

Section SharedFiles.
Context `{Host}.

(** The copy statement, case by case. *)
Lemma copy_shared_files_present pkg w :
  is_Some (fs w !! readme_key pkg) →
  copy_shared_files (base_path pkg) w = (w, inr tt).
Proof.
  intros Hsome. unfold copy_shared_files, bind, existsSync.
  fold (readme_key pkg). by rewrite bool_decide_eq_true_2.
Qed.

Lemma copy_shared_files_absent pkg w :
  fs w !! readme_key pkg = None →
  copy_shared_files (base_path pkg) w
  = (copyFileSync (path_resolve [__dirname; "README.md"])
                  (path_join (base_path pkg) "README.md") ;;
     copyFileSync (path_resolve [__dirname; "LICENSE"])
                  (path_join (base_path pkg) "LICENSE")) w.
Proof.
  intros Hnone. unfold copy_shared_files, bind at 1, existsSync.
  fold (readme_key pkg). rewrite bool_decide_eq_false_2; [done|].
  rewrite Hnone. by intros [? ?].
Qed.

Lemma copy_shared_files_no_readme pkg w :
  fs w !! readme_key pkg = None →
  fs w !! root_readme = None →
  copy_shared_files (base_path pkg) w
  = (w, inl (ENOENT "copyfile" (path_resolve [__dirname; "README.md"])
                    (path_join (base_path pkg) "README.md"))).
Proof.
  intros Hnone Hr. rewrite copy_shared_files_absent by done.
  unfold bind, copyFileSync. fold root_readme. by rewrite Hr.
Qed.

Lemma copy_shared_files_no_license pkg w c1 :
  fs w !! readme_key pkg = None →
  fs w !! root_readme = Some c1 →
  fs w !! root_license = None →
  root_license ≠ readme_key pkg →
  copy_shared_files (base_path pkg) w
  = (mkWorld (<[readme_key pkg := c1]> (fs w))
       (events w ++
        [CopyFileSync (path_resolve [__dirname; "README.md"])
                      (path_join (base_path pkg) "README.md")]),
     inl (ENOENT "copyfile" (path_resolve [__dirname; "LICENSE"])
                 (path_join (base_path pkg) "LICENSE"))).
Proof.
  intros Hnone Hr Hl Hne. rewrite copy_shared_files_absent by done.
  unfold bind, copyFileSync. fold root_readme root_license.
  fold (readme_key pkg). rewrite Hr. simpl.
  rewrite lookup_insert_ne by done. by rewrite Hl.
Qed.

Lemma declaration_trace_no_copy pkgJSON eps out files :
  Forall (fun e => is_copy e = false) (declaration_trace pkgJSON eps out files).
Proof.
  unfold declaration_trace. apply Forall_app. split.
  - by repeat constructor.
  - apply Forall_forall. intros e He.
    apply list_elem_of_fmap in He as (d & -> & _). done.
Qed.

Lemma build_trace_no_copy argv pkgJSON basePath files :
  Forall (fun e => is_copy e = false) (build_trace argv pkgJSON basePath files).
Proof.
  unfold build_trace. apply Forall_app. split.
  - by repeat constructor.
  - apply declaration_trace_no_copy.
Qed.

(** C2: a package whose manifest has a non-empty [scripts.build] only gets
    the skip notice: the callback returns normally, the store is unchanged,
    and the one event it adds is the notice, so no build is issued and no
    declaration is emitted for it. *)
Theorem custom_build_is_skipped argv pkg scripts cmd w :
  js_get (toJSON pkg) "scripts" = JObj scripts →
  assoc "build" scripts = JStr cmd →
  cmd ≠ EmptyString →
  build_package argv pkg w
  = (mkWorld (fs w)
       (events w ++
        [ConsoleLog [js_get (toJSON pkg) "name";
                     JStr "has custom build! skipping default build."]]),
     inr tt).
Proof.
  intros Hscripts Hbuild Hcmd.
  rewrite build_package_skipped; [done|].
  unfold skipped. rewrite Hscripts. simpl. rewrite Hbuild. simpl.
  apply negb_true_iff, String.eqb_neq. done.
Qed.

Lemma build_package_readme_present argv pkg w :
  skipped pkg = false →
  is_Some (fs w !! readme_key pkg) →
  build_package argv pkg w
  = (mkWorld (fs w)
       (events w ++ build_trace argv (toJSON pkg) (base_path pkg) (fs w)),
     inr tt).
Proof.
  intros Hskip Hsome.
  rewrite build_package_unskipped by done.
  unfold bind. rewrite copy_shared_files_present by done.
  apply bundle_and_emit_run.
Qed.

(** C10: for a package that is not skipped and already has README.md, the
    callback writes nothing: the store after it is the store before it (so a
    missing LICENSE stays missing and existing files keep their content),
    and none of the events it adds is a copy. *)
Theorem existing_readme_means_no_copy argv pkg w :
  skipped pkg = false →
  is_Some (fs w !! readme_key pkg) →
  build_package argv pkg w
  = (mkWorld (fs w)
       (events w ++ build_trace argv (toJSON pkg) (base_path pkg) (fs w)),
     inr tt)
  ∧ Forall (fun e => is_copy e = false)
      (build_trace argv (toJSON pkg) (base_path pkg) (fs w)).
Proof.
  intros Hskip Hsome. split.
  - by apply build_package_readme_present.
  - apply build_trace_no_copy.
Qed.

End SharedFiles.

Section BuildActions.
Context `{Host}.

Lemma build_package_after_copy argv pkg w w1 :
  skipped pkg = false →
  copy_shared_files (base_path pkg) w = (w1, inr tt) →
  build_package argv pkg w
  = (mkWorld (fs w1)
       (events w1 ++ build_trace argv (toJSON pkg) (base_path pkg) (fs w1)),
     inr tt).
Proof.
  intros Hskip Hcopy. rewrite build_package_unskipped by done.
  unfold bind. rewrite Hcopy. apply bundle_and_emit_run.
Qed.





(** C7: with a truthy [watch] option, the ES-module build of a package is
    issued with a watch object whose [onRebuild], called without an error,
    runs the same declaration emission as the first one, and, called with an
    error, prints the error on the error console and emits nothing. *)
Theorem watch_registers_rebuild_hook argv pkg w w1 :
  skipped pkg = false →
  copy_shared_files (base_path pkg) w = (w1, inr tt) →
  truthy (js_get argv "watch") = true →
  let eps := glob_sync (fs w1) (entry_pattern (base_path pkg)) in
  let out := path_join (base_path pkg) "build" in
  ∃ w' esm h,
    build_package argv pkg w = (w', inr tt) ∧
    EsbuildBuild esm ∈ events w' ∧
    format esm = "esm" ∧
    watch esm = WatchHooks h ∧
    (∀ err wr,
       truthy err = false →
       onRebuild h err wr = emitTSDeclaration (toJSON pkg) eps out wr ∧
       onRebuild h err wr
       = (mkWorld (fs wr)
            (events wr ++ declaration_trace (toJSON pkg) eps out (fs wr)),
          inr tt)) ∧
    (∀ err wr,
       truthy err = true →
       onRebuild h err wr
       = (mkWorld (fs wr) (events wr ++ [ConsoleError err]), inr tt)).
Proof.
  intros Hskip Hcopy Hwatch eps out.
  eexists _, (esm_options argv (toJSON pkg) eps out),
    (mkRebuildHook (toJSON pkg) eps out).
  split; [by apply build_package_after_copy|].
  split.
  { simpl. unfold build_trace. fold eps out. set_solver. }
  split; [done|]. split.
  { simpl. unfold js_and. by rewrite Hwatch. }
  split.
  - intros err wr Herr. unfold onRebuild. rewrite Herr. simpl.
    split; [done|]. apply emitTSDeclaration_run.
  - intros err wr Herr. unfold onRebuild. by rewrite Herr.
Qed.

Lemma declaration_trace_quiet pkgJSON eps out files :
  Forall (fun e => is_handler e = false ∧ is_console_error e = false)
    (declaration_trace pkgJSON eps out files)
  ∧ builds_of (declaration_trace pkgJSON eps out files) = [].
Proof.
  unfold declaration_trace. split.
  - apply Forall_app. split; [by repeat constructor|].
    apply Forall_forall. intros e He.
    apply list_elem_of_fmap in He as (d & -> & _). done.
  - unfold builds_of. rewrite omap_app. simpl.
    induction (ts_getPreEmitDiagnostics _ _ ++ ts_emit _ _) as [|d ds IH];
      simpl; auto.
Qed.

(** Events that attach no handler only add promises, all unhandled. *)
Lemma promise_steps_no_handler new :
  Forall (fun e => is_handler e = false) new →
  ∀ ps,
    foldl promise_step ps new
    = ps ++ map (fun opts => mkPromise opts false) (builds_of new).
Proof.
  induction 1 as [|e new He _ IH]; intros ps; simpl.
  - by rewrite app_nil_r.
  - rewrite IH. destruct e; simpl in *; try done.
    by rewrite <- app_assoc.
Qed.

Lemma unhandled_rejections_app settle old new :
  Forall (fun e => is_handler e = false) new →
  unhandled_rejections settle (old ++ new)
  = unhandled_rejections settle old ++
    omap (rejection settle)
      (map (fun opts => mkPromise opts false) (builds_of new)).
Proof.
  intros Hnew. unfold unhandled_rejections, promises_of.
  by rewrite foldl_app, promise_steps_no_handler, omap_app.
Qed.

(** C9: for a package that is not skipped, the callback issues the CommonJS
    build, then the ES-module build, and goes straight on to the
    declaration emission inside the same call; it attaches no handler to
    either promise, and it returns normally however the builds settle.
    Without [watch], neither build carries a hook, nothing is printed on the
    error console, and each of the two builds that rejects ends as an
    unhandled rejection. *)
Theorem bundles_issued_then_declarations_emitted argv pkg w w1 :
  skipped pkg = false →
  copy_shared_files (base_path pkg) w = (w1, inr tt) →
  let eps := glob_sync (fs w1) (entry_pattern (base_path pkg)) in
  let out := path_join (base_path pkg) "build" in
  let cjs := cjs_options argv eps out in
  let esm := esm_options argv (toJSON pkg) eps out in
  let new :=
    [EsbuildBuild cjs; EsbuildBuild esm] ++
    declaration_trace (toJSON pkg) eps out (fs w1) in
  build_package argv pkg w = (mkWorld (fs w1) (events w1 ++ new), inr tt) ∧
  Forall (fun e => is_handler e = false) new ∧
  (truthy (js_get argv "watch") = false →
   watch cjs = WatchValue (js_get argv "watch") ∧
   watch esm = WatchValue (js_get argv "watch") ∧
   Forall (fun e => is_console_error e = false) new ∧
   ∀ settle,
     unhandled_rejections settle (events w1 ++ new)
     = unhandled_rejections settle (events w1) ++
       omap (rejection settle) [mkPromise cjs false; mkPromise esm false]).
Proof.
  intros Hskip Hcopy eps out cjs esm new.
  destruct (declaration_trace_quiet (toJSON pkg) eps out (fs w1))
    as [Hquiet Hbuilds].
  assert (Forall (fun e => is_handler e = false) new) as Hnew.
  { apply Forall_app. split; [by repeat constructor|].
    eapply Forall_impl; [exact Hquiet|]. by intros e [? _]. }
  split; [by apply build_package_after_copy|]. split; [exact Hnew|].
  intros Hwatch. split; [done|]. split.
  { subst esm. simpl. unfold js_and. by rewrite Hwatch. }
  split.
  { apply Forall_app. split; [by repeat constructor|].
    eapply Forall_impl; [exact Hquiet|]. by intros e [_ ?]. }
  intros settle. rewrite unhandled_rejections_app by done.
  subst new. unfold builds_of in *. rewrite omap_app, Hbuilds. done.
Qed.

End BuildActions.

Section WholeRun.
Context `{Host}.

Lemma array_map_app_inr {A B} (f : A → M B) pre l w w1 res :
  array_map f pre w = (w1, inr res) →
  array_map f (pre ++ l) w
  = match array_map f l w1 with
    | (w2, inl e) => (w2, inl e)
    | (w2, inr ys) => (w2, inr (res ++ ys))
    end.
Proof.
  revert w res. induction pre as [|x pre IH]; intros w res; simpl.
  - intros [= <- <-]. by destruct (array_map f l w) as [? [?|?]].
  - unfold bind, ret. destruct (f x w) as [wx [e|y]]; [done|].
    destruct (array_map f pre wx) as [wp [e|ys]] eqn:Hpre; [done|].
    intros [= <- <-]. rewrite (IH _ _ Hpre).
    by destruct (array_map f l wp) as [? [?|?]].
Qed.

Lemma array_map_cons_inl {A B} (f : A → M B) x l w w' e :
  f x w = (w', inl e) → array_map f (x :: l) w = (w', inl e).
Proof. intros Hx. simpl. unfold bind. by rewrite Hx. Qed.

Lemma getSortedPackages_fs scope ignore w r w2 :
  getSortedPackages scope ignore w = (w, r) →
  fs w2 = fs w →
  getSortedPackages scope ignore w2 = (w2, r).
Proof.
  unfold getSortedPackages, bind, read_fs, lift, ret. intros Hrun ->.
  destruct (getPackages (fs w) __dirname) as [e|packages].
  { by injection Hrun as <-. }
  destruct (filterPackages packages scope ignore false) as [e|filtered].
  { by injection Hrun as <-. }
  destruct (batchPackages filtered) as [e|batches]; by injection Hrun as <-.
Qed.

(** [main] is the printing of the options, then the callback on each of the
    sorted packages. *)
Lemma main_run argv w pkgs :
  getSortedPackages (js_get argv "scope") (js_get argv "ignore") w
  = (w, inr pkgs) →
  main argv w
  = match array_map (build_package argv) pkgs (after_argv_log argv w) with
    | (w', inl e) => (w', inl e)
    | (w', inr _) => (w', inr tt)
    end.
Proof.
  intros Hsorted. unfold main, bind at 1, console_log, emit_event.
  fold (after_argv_log argv w). unfold bind at 1.
  rewrite (getSortedPackages_fs _ _ _ _ (after_argv_log argv w) Hsorted)
    by done.
  unfold bind, ret.
  by destruct (array_map _ _ _) as [? [?|?]].
Qed.

End WholeRun.

Section ProcessedSet.
Context `{Host}.

(** C4: the packages [main] runs the callback on are the ones
    [getSortedPackages] returns for [argv.scope] and [argv.ignore], and
    these are exactly the discovered packages that match [scope] (or any,
    when no scope is given), do not match [ignore], and are not private.
    The filter is [filterPackages], called with [showPrivate = false]; it
    and [batchPackages] enter through the contracts the spec gives them. *)
Theorem processed_packages_exactly_kept argv w discovered out :
  filter_contract →
  batch_partition_contract →
  getPackages (fs w) __dirname = inr discovered →
  getSortedPackages (js_get argv "scope") (js_get argv "ignore") w
  = (w, inr out) →
  main argv w
  = match array_map (build_package argv) out (after_argv_log argv w) with
    | (w', inl e) => (w', inl e)
    | (w', inr _) => (w', inr tt)
    end
  ∧ ∀ p, p ∈ out ↔
         p ∈ discovered ∧ in_scope_b (js_get argv "scope") p = true ∧
         matches_b (js_get argv "ignore") p = false ∧ private p = false.
Proof.
  intros Hfilter Hpart Hdisc Hrun. split; [by apply main_run|]. intros p.
  apply getSortedPackages_inr in Hrun
    as (_ & packages & filtered & batches & Hp & Hf & Hb & ->).
  rewrite Hdisc in Hp. injection Hp as <-.
  rewrite flatten_concat, (Hpart _ _ Hb), (Hfilter _ _ _ _ _ Hf p).
  unfold kept_b. simpl.
  rewrite !andb_true_iff, !negb_true_iff. tauto.
Qed.

End ProcessedSet.

Section SharedFilesRun.
Context `{Host}.

(** C8: when the callback reaches a package that is not skipped and has no
    README.md, and a root file is missing, the copy throws and [main] ends
    with that exception in the world the failing copy left: if the root
    README.md is missing nothing has been written; if only the root LICENSE
    is missing the README.md copy has been made.  The packages after the
    failing one leave no event. *)
Theorem missing_shared_file_aborts_run argv w pre p post w1 res :
  getSortedPackages (js_get argv "scope") (js_get argv "ignore") w
  = (w, inr (pre ++ p :: post)) →
  array_map (build_package argv) pre (after_argv_log argv w) = (w1, inr res) →
  skipped p = false →
  fs w1 !! readme_key p = None →
  fs w1 !! root_readme = None ∨ fs w1 !! root_license = None →
  root_license ≠ readme_key p →
  (fs w1 !! root_readme = None ∧
   main argv w
   = (w1, inl (ENOENT "copyfile" (path_resolve [__dirname; "README.md"])
                 (path_join (base_path p) "README.md"))))
  ∨ (∃ c1, fs w1 !! root_readme = Some c1 ∧
     main argv w
     = (mkWorld (<[readme_key p := c1]> (fs w1))
          (events w1 ++
           [CopyFileSync (path_resolve [__dirname; "README.md"])
                         (path_join (base_path p) "README.md")]),
        inl (ENOENT "copyfile" (path_resolve [__dirname; "LICENSE"])
                (path_join (base_path p) "LICENSE")))).
Proof.
  intros Hsorted Hpre Hskip Hnone Hmissing Hne.
  rewrite (main_run _ _ _ Hsorted), (array_map_app_inr _ _ _ _ _ _ Hpre).
  destruct (fs w1 !! root_readme) as [c1|] eqn:Hr.
  - destruct Hmissing as [?|Hl]; [done|]. right. exists c1. split; [done|].
    erewrite array_map_cons_inl; [done|].
    rewrite build_package_unskipped by done. unfold bind.
    by rewrite (copy_shared_files_no_license p w1 c1).
  - left. split; [done|].
    erewrite array_map_cons_inl; [done|].
    rewrite build_package_unskipped by done. unfold bind.
    by rewrite copy_shared_files_no_readme.
Qed.

End SharedFilesRun.

(** ** Every outcome of the callback and of the loop *)

Section Outcomes.
Context `{Host}.

(** The copy step, whatever it finds: what it adds to the trace, where it
    may write, and when it fails. *)
Lemma copy_shared_files_effect p w w1 r :
  copy_shared_files (base_path p) w = (w1, r) →
  ∃ new,
    events w1 = events w ++ new ∧
    Forall (fun e => is_copy e = true) new ∧
    (∀ k, k ∉ shared_keys p → fs w1 !! k = fs w !! k) ∧
    (∀ k, is_Some (fs w !! k) → is_Some (fs w1 !! k)) ∧
    (is_Some (fs w !! readme_key p) → w1 = w ∧ r = inr tt) ∧
    (r = inr tt → is_Some (fs w1 !! readme_key p)) ∧
    (∀ e, r = inl e →
          fs w !! readme_key p = None ∧
          ((e = readme_enoent p ∧ fs w !! root_readme = None) ∨
           (e = license_enoent p ∧ fs w1 !! root_license = None))) ∧
    (is_Some (fs w !! root_readme) → is_Some (fs w !! root_license) →
     r = inr tt).
Proof.
  intros Hrun.
  destruct (fs w !! readme_key p) as [c|] eqn:Hrk.
  { rewrite copy_shared_files_present in Hrun by (by rewrite Hrk).
    injection Hrun as <- <-. exists []. rewrite app_nil_r.
    repeat split; try done; by rewrite Hrk. }
  rewrite copy_shared_files_absent in Hrun by done.
  unfold bind, copyFileSync in Hrun.
  fold root_readme root_license (readme_key p) (license_key p) in Hrun.
  destruct (fs w !! root_readme) as [c1|] eqn:Hr; cbn [fs events] in Hrun.
  - destruct (<[readme_key p:=c1]> (fs w) !! root_license) as [c2|] eqn:Hl.
    + injection Hrun as <- <-. eexists [_; _]. cbn [fs events].
      split; [by rewrite <- app_assoc|]. split; [by repeat constructor|].
      split.
      { intros k Hk. unfold shared_keys in Hk.
        rewrite !not_elem_of_cons in Hk. destruct Hk as (? & ? & _).
        by rewrite !lookup_insert_ne. }
      split.
      { intros k Hk. rewrite !lookup_insert_is_Some'. auto. }
      split; [by intros [? ?]|]. split.
      { intros _. rewrite !lookup_insert_is_Some'. right. by left. }
      split; [done|]. done.
    + injection Hrun as <- <-. eexists [_]. cbn [fs events].
      split; [done|]. split; [by repeat constructor|]. split.
      { intros k Hk. unfold shared_keys in Hk.
        rewrite !not_elem_of_cons in Hk. destruct Hk as (? & ? & _).
        by rewrite lookup_insert_ne. }
      split.
      { intros k Hk. rewrite lookup_insert_is_Some'. auto. }
      split; [by intros [? ?]|]. split; [done|]. split.
      { intros e [= <-]. split; [done|]. right. done. }
      intros _ [c2 Hc2]. exfalso.
      assert (is_Some (<[readme_key p:=c1]> (fs w) !! root_license)) as Hs.
      { rewrite lookup_insert_is_Some'. right. by rewrite Hc2. }
      rewrite Hl in Hs. by destruct Hs.
  - injection Hrun as <- <-. exists []. rewrite app_nil_r.
    split; [done|]. split; [done|]. split; [done|]. split; [done|].
    split; [by intros [? ?]|]. split; [done|]. split.
    { intros e [= <-]. split; [done|]. left. done. }
    by intros [? ?].
Qed.

(** The three ways the callback can go. *)
Lemma build_package_cases argv p w w' r :
  build_package argv p w = (w', r) →
  (skipped p = true ∧
   w' = mkWorld (fs w) (events w ++ [skip_notice p]) ∧ r = inr tt)
  ∨ (skipped p = false ∧ ∃ e,
       copy_shared_files (base_path p) w = (w', inl e) ∧ r = inl e)
  ∨ (skipped p = false ∧ ∃ w1,
       copy_shared_files (base_path p) w = (w1, inr tt) ∧
       w' = mkWorld (fs w1)
              (events w1 ++
               build_trace argv (toJSON p) (base_path p) (fs w1)) ∧
       r = inr tt).
Proof.
  intros Hrun. destruct (skipped p) eqn:Hskip.
  - left. rewrite build_package_skipped in Hrun by done.
    injection Hrun as <- <-. done.
  - right. rewrite build_package_unskipped in Hrun by done.
    unfold bind in Hrun.
    destruct (copy_shared_files (base_path p) w) as [w1 [e|[]]] eqn:Hcopy.
    + left. injection Hrun as <- <-. split; [done|]. by exists e.
    + right. rewrite bundle_and_emit_run in Hrun. injection Hrun as <- <-.
      split; [done|]. by exists w1.
Qed.

Lemma copies_silent new :
  Forall (fun e => is_copy e = true) new →
  Forall (fun e => is_quiet e = true) new ∧
  builds_of new = [] ∧ emitted_programs new = [].
Proof.
  induction 1 as [|e new He _ (IH1 & IH2 & IH3)]; [done|].
  destruct e; try discriminate. split; [by constructor|]. done.
Qed.

Lemma declaration_trace_programs pkgJSON eps out files :
  emitted_programs (declaration_trace pkgJSON eps out files)
  = [mkProgram eps (declaration_options out)].
Proof.
  unfold declaration_trace, emitted_programs. rewrite omap_app. simpl.
  do 2 f_equal.
  induction (ts_getPreEmitDiagnostics _ _ ++ ts_emit _ _) as [|d ds IH];
    simpl; auto.
Qed.

Lemma build_trace_facts argv p files :
  let eps := glob_sync files (entry_pattern (base_path p)) in
  let new := build_trace argv (toJSON p) (base_path p) files in
  Forall (fun e => is_quiet e = true) new ∧
  builds_of new = job_builds argv (p, eps) ∧
  emitted_programs new = [job_program (p, eps)].
Proof.
  intros eps new. subst new. unfold build_trace. fold eps.
  destruct (declaration_trace_quiet (toJSON p) eps
              (path_join (base_path p) "build") files) as [Hquiet Hbuilds].
  split; [|split].
  - apply Forall_app. split; [by repeat constructor|].
    eapply Forall_impl; [exact Hquiet|].
    intros e [He1 He2]. unfold is_quiet. by rewrite He1, He2.
  - unfold builds_of in *. rewrite omap_app, Hbuilds. done.
  - unfold emitted_programs. rewrite omap_app.
    exact (declaration_trace_programs (toJSON p) eps
             (path_join (base_path p) "build") files).
Qed.

(** One call of the callback, whatever its outcome. *)
Lemma build_package_effect argv p w w' r :
  build_package argv p w = (w', r) →
  ∃ new,
    events w' = events w ++ new ∧
    Forall (fun e => is_quiet e = true) new ∧
    (∀ k, k ∉ shared_keys p → fs w' !! k = fs w !! k) ∧
    (∀ k, is_Some (fs w !! k) → is_Some (fs w' !! k)) ∧
    (skipped p = true →
     fs w' = fs w ∧ new = [skip_notice p] ∧ r = inr tt) ∧
    (skipped p = false → is_Some (fs w !! readme_key p) →
     fs w' = fs w ∧ r = inr tt ∧ Forall (fun e => is_copy e = false) new) ∧
    (skipped p = false → r = inr tt →
     is_Some (fs w' !! readme_key p) ∧
     ∃ eps, builds_of new = job_builds argv (p, eps) ∧
            emitted_programs new = [job_program (p, eps)]) ∧
    (∀ e, r = inl e →
          skipped p = false ∧ fs w !! readme_key p = None ∧
          (e = readme_enoent p ∨ e = license_enoent p) ∧
          builds_of new = [] ∧ emitted_programs new = []) ∧
    (is_Some (fs w !! root_readme) → is_Some (fs w !! root_license) →
     r = inr tt).
Proof.
  intros Hrun.
  destruct (build_package_cases _ _ _ _ _ Hrun)
    as [(Hskip & -> & ->) | [(Hskip & e & Hcopy & ->)
                            | (Hskip & w1 & Hcopy & -> & ->)]].
  - exists [skip_notice p]. cbn [fs events].
    split; [done|]. split; [by repeat constructor|].
    split; [done|]. split; [done|]. split; [done|].
    split; [by rewrite Hskip|]. split; [by rewrite Hskip|].
    split; [done|]. done.
  - destruct (copy_shared_files_effect _ _ _ _ Hcopy)
      as (new & Hev & Hcopies & Hframe & Hmono & Hpresent & _ & Hfail & Hroots).
    destruct (copies_silent _ Hcopies) as (Hquiet & Hb & Hp).
    exists new. split; [done|]. split; [done|]. split; [done|].
    split; [done|]. split; [by rewrite Hskip|].
    split. { intros _ Hsome. by destruct (Hpresent Hsome). }
    split; [done|]. split.
    { intros e' [= <-]. destruct (Hfail e eq_refl) as [Hnone Hkind].
      split; [done|]. split; [done|]. split; [tauto|]. done. }
    intros Hr Hl. by specialize (Hroots Hr Hl).
  - destruct (copy_shared_files_effect _ _ _ _ Hcopy)
      as (new & Hev & Hcopies & Hframe & Hmono & Hpresent & Hafter & _ & _).
    destruct (copies_silent _ Hcopies) as (Hquiet & Hb & Hp).
    destruct (build_trace_facts argv p (fs w1)) as (Hquiet2 & Hb2 & Hp2).
    exists (new ++ build_trace argv (toJSON p) (base_path p) (fs w1)).
    cbn [fs events].
    split; [by rewrite Hev, app_assoc|].
    split; [by apply Forall_app|]. split; [done|]. split; [done|].
    split; [by rewrite Hskip|]. split.
    { intros _ Hsome. destruct (Hpresent Hsome) as [-> _].
      split; [done|]. split; [done|].
      assert (new = []) as ->.
      { rewrite <- (app_nil_r (events w)) in Hev at 1.
        by apply app_inv_head in Hev. }
      apply build_trace_no_copy. }
    split.
    { intros _ _. split; [by apply Hafter|].
      exists (glob_sync (fs w1) (entry_pattern (base_path p))).
      unfold builds_of, emitted_programs in *.
      rewrite !omap_app, Hb, Hp. done. }
    split; [done|]. done.
Qed.

(** The callback on a package that is not skipped and has no README.md:
    the three ways it can end. *)
Lemma build_package_readme_absent argv p w :
  skipped p = false →
  fs w !! readme_key p = None →
  (fs w !! root_readme = None ∧
   build_package argv p w = (w, inl (readme_enoent p)))
  ∨ (∃ c1,
       fs w !! root_readme = Some c1 ∧
       <[readme_key p := c1]> (fs w) !! root_license = None ∧
       build_package argv p w
       = (mkWorld (<[readme_key p := c1]> (fs w))
            (events w ++
             [CopyFileSync (path_resolve [__dirname; "README.md"])
                           (path_join (base_path p) "README.md")]),
          inl (license_enoent p)))
  ∨ (∃ c1 c2,
       fs w !! root_readme = Some c1 ∧
       <[readme_key p := c1]> (fs w) !! root_license = Some c2 ∧
       build_package argv p w
       = (mkWorld (<[license_key p := c2]> (<[readme_key p := c1]> (fs w)))
            (events w ++ shared_copies p ++
             build_trace argv (toJSON p) (base_path p)
               (<[license_key p := c2]> (<[readme_key p := c1]> (fs w)))),
          inr tt)).
Proof.
  intros Hskip Hnone.
  pose proof (copy_shared_files_absent p w Hnone) as Hcopy.
  unfold bind, copyFileSync in Hcopy.
  fold root_readme root_license (readme_key p) (license_key p) in Hcopy.
  destruct (fs w !! root_readme) as [c1|] eqn:Hr.
  - right. cbn [fs events] in Hcopy.
    destruct (<[readme_key p:=c1]> (fs w) !! root_license) as [c2|] eqn:Hl.
    + right. exists c1, c2. split; [done|]. split; [done|].
      rewrite (build_package_after_copy argv p w _ Hskip Hcopy).
      cbn [fs events]. unfold shared_copies. by rewrite <- !app_assoc.
    + left. exists c1. split; [done|]. split; [done|].
      rewrite build_package_unskipped by done. unfold bind.
      by rewrite Hcopy.
  - left. split; [done|].
    rewrite build_package_unskipped by done. unfold bind. by rewrite Hcopy.
Qed.

(** Whatever the callback copies for a package is one of the two copies of
    the copy step, and the package is one that is not skipped. *)
Lemma build_package_copy_events argv p w w' r :
  build_package argv p w = (w', r) →
  ∃ new,
    events w' = events w ++ new ∧
    ∀ src dest,
      CopyFileSync src dest ∈ new →
      skipped p = false ∧ CopyFileSync src dest ∈ shared_copies p.
Proof.
  intros Hrun. destruct (skipped p) eqn:Hskip.
  { rewrite build_package_skipped in Hrun by done.
    injection Hrun as <- <-. eexists. split; [done|].
    intros src dest Hin. apply list_elem_of_singleton in Hin. done. }
  destruct (fs w !! readme_key p) as [c|] eqn:Hreadme.
  { rewrite build_package_readme_present in Hrun
      by (done || by rewrite Hreadme).
    injection Hrun as <- <-. eexists. split; [done|].
    intros src dest Hin.
    pose proof (build_trace_no_copy argv (toJSON p) (base_path p) (fs w))
      as Hnocopy.
    rewrite Forall_forall in Hnocopy. by specialize (Hnocopy _ Hin). }
  destruct (build_package_readme_absent argv p w Hskip Hreadme)
    as [(_ & Hq) | [(c1 & _ & _ & Hq) | (c1 & c2 & _ & _ & Hq)]];
    rewrite Hq in Hrun; injection Hrun as <- <-.
  - exists []. rewrite app_nil_r. split; [done|].
    intros src dest Hin. inversion Hin.
  - eexists. split; [done|]. intros src dest Hin. split; [done|].
    apply list_elem_of_singleton in Hin as ->. by left.
  - eexists. split; [done|]. intros src dest Hin. split; [done|].
    apply elem_of_cons in Hin as [->|Hin]; [by left|].
    apply elem_of_cons in Hin as [->|Hin]; [by right; left|].
    match type of Hin with
    | _ ∈ build_trace _ _ _ ?files =>
        pose proof (build_trace_no_copy argv (toJSON p) (base_path p) files)
          as Hnocopy
    end.
    rewrite Forall_forall in Hnocopy. by specialize (Hnocopy _ Hin).
Qed.

Lemma array_map_cons_inv {A B} (f : A → M B) x l w w' r :
  array_map f (x :: l) w = (w', r) →
  (∃ e, f x w = (w', inl e) ∧ r = inl e)
  ∨ (∃ w1 y, f x w = (w1, inr y) ∧
       ((∃ e, array_map f l w1 = (w', inl e) ∧ r = inl e)
        ∨ (∃ ys, array_map f l w1 = (w', inr ys) ∧ r = inr (y :: ys)))).
Proof.
  simpl. unfold bind, ret. destruct (f x w) as [w1 [e|y]].
  - intros [= <- <-]. left. by exists e.
  - destruct (array_map f l w1) as [w2 [e|ys]] eqn:Hrest;
      intros [= <- <-]; right; exists w1, y; (split; [done|]).
    + left. by exists e.
    + right. by exists ys.
Qed.

Lemma unskipped_cons q rest :
  unskipped (q :: rest)
  = if skipped q then unskipped rest else q :: unskipped rest.
Proof.
  unfold unskipped. destruct (skipped q) eqn:Hq.
  - by rewrite filter_cons_False by (by rewrite Hq).
  - by rewrite filter_cons_True by done.
Qed.

(** The loop over the packages, whatever its outcome. *)
Lemma array_map_effect argv pkgs :
  ∀ w w' r,
    array_map (build_package argv) pkgs w = (w', r) →
    ∃ new,
      events w' = events w ++ new ∧
      Forall (fun e => is_quiet e = true) new ∧
      (∀ k, k ∉ flat_map shared_keys (unskipped pkgs) →
            fs w' !! k = fs w !! k) ∧
      (∀ k, is_Some (fs w !! k) → is_Some (fs w' !! k)) ∧
      (∀ res, r = inr res →
         (∀ p, p ∈ unskipped pkgs → is_Some (fs w' !! readme_key p)) ∧
         ∃ jobs : list Job,
           map fst jobs = unskipped pkgs ∧
           builds_of new = flat_map (job_builds argv) jobs ∧
           emitted_programs new = map job_program jobs) ∧
      (∀ e, r = inl e →
         ∃ p, p ∈ unskipped pkgs ∧
              (e = readme_enoent p ∨ e = license_enoent p)).
Proof.
  induction pkgs as [|q rest IH]; intros w w' r Hrun.
  { injection Hrun as <- <-. exists []. rewrite app_nil_r.
    split; [done|]. split; [done|]. split; [done|]. split; [done|].
    split; [|done]. intros res _. split.
    - intros p Hp. inversion Hp.
    - by exists []. }
  rewrite unskipped_cons.
  destruct (array_map_cons_inv _ _ _ _ _ _ Hrun)
    as [(e & Hq & ->) | (w1 & [] & Hq & Hrest)].
  - destruct (build_package_effect _ _ _ _ _ Hq)
      as (new & Hev & Hquiet & Hframe & Hmono & _ & _ & _ & Hfail & _).
    destruct (Hfail e eq_refl) as (Hskip & _ & Hkind & _).
    rewrite Hskip. exists new. split; [done|]. split; [done|]. split.
    { intros k Hk. apply Hframe. intros Hin. apply Hk. cbn [flat_map].
      apply elem_of_app. by left. }
    split; [done|]. split; [done|].
    intros e' [= <-]. exists q. split; [by left | done].
  - destruct (build_package_effect _ _ _ _ _ Hq)
      as (new1 & Hev1 & Hquiet1 & Hframe1 & Hmono1 & Hskipped & _ & Hok & _).
    assert (∃ r2, array_map (build_package argv) rest w1 = (w', r2) ∧
                  ((∃ e, r2 = inl e ∧ r = inl e)
                   ∨ (∃ ys, r2 = inr ys ∧ r = inr (tt :: ys))))
      as (r2 & Hrun2 & Hr2).
    { destruct Hrest as [(e & ? & ->) | (ys & ? & ->)].
      - exists (inl e). split; [done|]. left. by exists e.
      - exists (inr ys). split; [done|]. right. by exists ys. }
    destruct (IH _ _ _ Hrun2)
      as (new2 & Hev2 & Hquiet2 & Hframe2 & Hmono2 & Hsucc2 & Hfail2).
    exists (new1 ++ new2).
    split; [by rewrite Hev2, Hev1, app_assoc|].
    split; [by apply Forall_app|].
    split.
    { intros k Hk. destruct (skipped q) eqn:Hskip.
      - destruct (Hskipped eq_refl) as (Hfs & _ & _).
        rewrite Hframe2 by done. by rewrite Hfs.
      - cbn [flat_map] in Hk. apply not_elem_of_app in Hk as [Hk1 Hk2].
        rewrite Hframe2 by done. by apply Hframe1. }
    split; [by auto|].
    split.
    + intros res ->. destruct Hr2 as [(e & _ & ?) | (ys & -> & _)]; [done|].
      destruct (Hsucc2 ys eq_refl) as (Hreadmes & jobs & Hjobs & Hb & Hp).
      destruct (skipped q) eqn:Hskip.
      * destruct (Hskipped eq_refl) as (_ & -> & _).
        split; [done|]. exists jobs. split; [done|].
        unfold builds_of, emitted_programs in *.
        rewrite !omap_app, Hb, Hp. done.
      * destruct (Hok eq_refl eq_refl) as (Hreadme & eps & Hb1 & Hp1). split.
        { intros p Hp'. apply elem_of_cons in Hp' as [->|Hp'].
          - by apply Hmono2.
          - by apply Hreadmes. }
        exists ((q, eps) :: jobs). split; [by simpl; rewrite Hjobs|].
        unfold builds_of, emitted_programs in *.
        rewrite !omap_app, Hb, Hp, Hb1, Hp1. done.
    + intros e ->. destruct Hr2 as [(e' & -> & [= <-]) | (ys & _ & ?)]; [|done].
      destruct (Hfail2 e eq_refl) as (p & Hp & Hkind).
      exists p. split; [|done]. destruct (skipped q); [done | by right].
Qed.

(** When every package that is not skipped has its README.md, the loop
    never reaches a copy. *)
Lemma array_map_readmes_present argv pkgs :
  ∀ w,
    (∀ p, p ∈ unskipped pkgs → is_Some (fs w !! readme_key p)) →
    ∃ w' res new,
      array_map (build_package argv) pkgs w = (w', inr res) ∧
      fs w' = fs w ∧
      events w' = events w ++ new ∧
      Forall (fun e => is_copy e = false) new.
Proof.
  induction pkgs as [|q rest IH]; intros w Hall.
  { exists w, [], []. by rewrite app_nil_r. }
  rewrite unskipped_cons in Hall.
  destruct (build_package argv q w) as [w1 r1] eqn:Hq.
  destruct (build_package_effect _ _ _ _ _ Hq)
    as (new1 & Hev1 & _ & _ & _ & Hskipped & Hpresent & _).
  assert (fs w1 = fs w ∧ r1 = inr tt ∧
          Forall (fun e => is_copy e = false) new1 ∧
          ∀ p, p ∈ unskipped rest → is_Some (fs w !! readme_key p))
    as (Hfs & -> & Hnocopy & Hrest).
  { destruct (skipped q) eqn:Hskip.
    - destruct (Hskipped eq_refl) as (? & -> & ?).
      split; [done|]. split; [done|]. split; [by repeat constructor|]. done.
    - destruct (Hpresent eq_refl) as (? & ? & ?); [apply Hall; by left|].
      split; [done|]. split; [done|]. split; [done|].
      intros p Hp. apply Hall. by right. }
  destruct (IH w1) as (w' & res & new2 & Hrun & Hfs2 & Hev2 & Hnocopy2).
  { intros p Hp. rewrite Hfs. by apply Hrest. }
  exists w', (tt :: res), (new1 ++ new2). split.
  { simpl. unfold bind. by rewrite Hq, Hrun. }
  split; [by rewrite Hfs2|].
  split; [by rewrite Hev2, Hev1, app_assoc|]. by apply Forall_app.
Qed.

Lemma not_shared_keys k q :
  k ≠ readme_key q → k ≠ license_key q → k ∉ shared_keys q.
Proof.
  intros H1 H2. unfold shared_keys. rewrite !not_elem_of_cons.
  split; [done|]. split; [done|]. apply not_elem_of_nil.
Qed.

Lemma readme_key_in_shared p pkgs :
  p ∈ pkgs → readme_key p ∈ flat_map shared_keys pkgs.
Proof.
  intros Hp. apply list_elem_of_In, in_flat_map. exists p.
  split; [by apply list_elem_of_In | by left].
Qed.

Lemma license_key_in_shared p pkgs :
  p ∈ pkgs → license_key p ∈ flat_map shared_keys pkgs.
Proof.
  intros Hp. apply list_elem_of_In, in_flat_map. exists p.
  split; [by apply list_elem_of_In | by right; left].
Qed.

(** A loop that returned normally, over packages whose shared-file paths
    are pairwise distinct and distinct from the root's: each package that
    was not skipped and had no README.md got both copies, from root files
    that were there, and holds their content at the end. *)
Lemma array_map_shared_success argv pkgs :
  ∀ w w' res,
    array_map (build_package argv) pkgs w = (w', inr res) →
    NoDup (root_readme :: root_license :: flat_map shared_keys pkgs) →
    ∃ new,
      events w' = events w ++ new ∧
      (∀ k, k ∉ flat_map shared_keys pkgs → fs w' !! k = fs w !! k) ∧
      ∀ p, p ∈ pkgs → skipped p = false → fs w !! readme_key p = None →
        (∀ e, e ∈ shared_copies p → e ∈ new) ∧
        is_Some (fs w !! root_readme) ∧
        is_Some (fs w !! root_license) ∧
        fs w' !! readme_key p = fs w !! root_readme ∧
        fs w' !! license_key p = fs w !! root_license.
Proof.
  induction pkgs as [|q rest IH]; intros w w' res Hrun Hdup.
  { injection Hrun as <- _. exists []. rewrite app_nil_r.
    split; [done|]. split; [done|]. intros p Hp. inversion Hp. }
  cbn [flat_map] in Hdup. unfold shared_keys at 1 in Hdup. simpl in Hdup.
  apply NoDup_cons in Hdup as [Hr_out Hdup].
  apply NoDup_cons in Hdup as [Hl_out Hdup].
  apply NoDup_cons in Hdup as [Hrk_out Hdup].
  apply NoDup_cons in Hdup as [Hlk_out Hdup].
  rewrite !not_elem_of_cons in Hr_out.
  rewrite !not_elem_of_cons in Hl_out.
  rewrite !not_elem_of_cons in Hrk_out.
  destruct Hr_out as (Hrl & Hr_rk & Hr_lk & Hr_rest).
  destruct Hl_out as (Hl_rk & Hl_lk & Hl_rest).
  destruct Hrk_out as (Hrk_lk & Hrk_rest).
  destruct (array_map_cons_inv _ _ _ _ _ _ Hrun)
    as [(e & _ & ?) | (w1 & [] & Hq & [(e & _ & ?) | (ys & Hrest & _)])];
    [done | done |].
  destruct (build_package_effect _ _ _ _ _ Hq)
    as (new1 & Hev1 & _ & Hframe1 & _).
  destruct (IH _ _ _ Hrest) as (new2 & Hev2 & Hframe2 & Hpost2).
  { apply NoDup_cons. split; [by rewrite not_elem_of_cons|].
    by apply NoDup_cons. }
  assert (∀ k, k ∈ flat_map shared_keys rest → k ∉ shared_keys q) as Hapart.
  { intros k Hk. apply not_shared_keys; by intros ->. }
  exists (new1 ++ new2). split; [by rewrite Hev2, Hev1, app_assoc|].
  split.
  { intros k Hk. cbn [flat_map] in Hk.
    apply not_elem_of_app in Hk as [Hk1 Hk2].
    rewrite Hframe2 by done. by apply Hframe1. }
  intros p Hp Hskip Hnone. apply elem_of_cons in Hp as [->|Hp].
  - destruct (build_package_readme_absent argv q w Hskip Hnone)
      as [(_ & Hq') | [(c1 & _ & _ & Hq') | (c1 & c2 & Hr & Hl & Hq')]];
      rewrite Hq' in Hq; [done | done |].
    injection Hq as <-. cbn [fs events] in *.
    apply app_inv_head in Hev1 as <-.
    rewrite lookup_insert_ne in Hl by done.
    rewrite !Hframe2 by done. rewrite Hr, Hl.
    split.
    { intros e He. apply elem_of_app. left. unfold shared_copies in He.
      apply elem_of_cons in He as [->|He]; [by left|].
      apply list_elem_of_singleton in He as ->. by right; left. }
    split; [done|]. split; [done|]. split.
    + rewrite lookup_insert_ne by done. by rewrite lookup_insert_eq.
    + by rewrite lookup_insert_eq.
  - pose proof (Hapart _ (readme_key_in_shared _ _ Hp)) as Hrk_p.
    destruct (Hpost2 p Hp Hskip) as (Hcopies & Hsr & Hsl & Hrk & Hlk).
    { by rewrite Hframe1. }
    rewrite !Hframe1 in Hsr, Hsl, Hrk, Hlk by (by apply not_shared_keys).
    split; [|done].
    intros e He. apply elem_of_app. right. by apply Hcopies.
Qed.

(** Every copy of a loop, whatever its outcome, is one of the two copies
    of the copy step for a package that is not skipped. *)
Lemma array_map_copy_events argv pkgs :
  ∀ w w' r,
    array_map (build_package argv) pkgs w = (w', r) →
    ∃ new,
      events w' = events w ++ new ∧
      ∀ src dest,
        CopyFileSync src dest ∈ new →
        ∃ p, p ∈ unskipped pkgs ∧ CopyFileSync src dest ∈ shared_copies p.
Proof.
  induction pkgs as [|q rest IH]; intros w w' r Hrun.
  { injection Hrun as <- <-. exists []. rewrite app_nil_r.
    split; [done|]. intros src dest Hin. inversion Hin. }
  assert (∀ p, p ∈ unskipped rest → p ∈ unskipped (q :: rest)) as Hmono.
  { intros p Hp. rewrite unskipped_cons. destruct (skipped q); [done|].
    by right. }
  assert (∀ w1 r1, build_package argv q w = (w1, r1) →
            ∃ new1, events w1 = events w ++ new1 ∧
              ∀ src dest, CopyFileSync src dest ∈ new1 →
                ∃ p, p ∈ unskipped (q :: rest) ∧
                     CopyFileSync src dest ∈ shared_copies p) as Hstep.
  { intros w1 r1 Hq.
    destruct (build_package_copy_events _ _ _ _ _ Hq) as (new1 & Hev1 & Hc1).
    exists new1. split; [done|]. intros src dest Hin.
    destruct (Hc1 _ _ Hin) as [Hskip Hshared]. exists q. split; [|done].
    rewrite unskipped_cons, Hskip. by left. }
  destruct (array_map_cons_inv _ _ _ _ _ _ Hrun)
    as [(e & Hq & ->) | (w1 & [] & Hq & Hrest)].
  - by apply (Hstep _ _ Hq).
  - destruct (Hstep _ _ Hq) as (new1 & Hev1 & Hc1).
    assert (∃ r2, array_map (build_package argv) rest w1 = (w', r2))
      as [r2 Hrun2].
    { destruct Hrest as [(e & ? & _) | (ys & ? & _)]; by eexists. }
    destruct (IH _ _ _ Hrun2) as (new2 & Hev2 & Hc2).
    exists (new1 ++ new2). split; [by rewrite Hev2, Hev1, app_assoc|].
    intros src dest Hin. apply elem_of_app in Hin as [Hin|Hin].
    + by apply Hc1.
    + destruct (Hc2 _ _ Hin) as (p & Hp & Hshared).
      exists p. split; [by apply Hmono | done].
Qed.

Lemma getSortedPackages_world scope ignore w :
  ∃ r, getSortedPackages scope ignore w = (w, r).
Proof.
  unfold getSortedPackages, bind, read_fs, lift, ret.
  destruct (getPackages (fs w) __dirname) as [e|packages]; [by eexists|].
  destruct (filterPackages packages scope ignore false) as [e|filtered];
    [by eexists|].
  destruct (batchPackages filtered) as [e|batches]; by eexists.
Qed.

Lemma main_sort_fails argv w e :
  getSortedPackages (js_get argv "scope") (js_get argv "ignore") w
  = (w, inl e) →
  main argv w = (after_argv_log argv w, inl e).
Proof.
  intros Hsorted. unfold main, bind at 1, console_log, emit_event.
  fold (after_argv_log argv w). unfold bind at 1.
  by rewrite (getSortedPackages_fs _ _ _ _ (after_argv_log argv w) Hsorted).
Qed.

End Outcomes.

(** ** Whole runs of main *)

Section Runs.
Context `{Host}.

Lemma array_map_all_skipped argv pkgs :
  ∀ w,
    Forall (fun p => skipped p = true) pkgs →
    ∃ res,
      array_map (build_package argv) pkgs w
      = (mkWorld (fs w) (events w ++ map skip_notice pkgs), inr res).
Proof.
  induction pkgs as [|q rest IH]; intros [files evs] Hall.
  { exists []. simpl. by rewrite app_nil_r. }
  apply Forall_cons in Hall as [Hq Hrest].
  destruct (IH (mkWorld files (evs ++ [skip_notice q])) Hrest) as [res Hrun].
  exists (tt :: res). simpl. unfold bind.
  rewrite build_package_skipped by done.
  unfold console_log, emit_event. cbn [fs events].
  fold (skip_notice q). rewrite Hrun. cbn [fs events].
  by rewrite <- app_assoc.
Qed.

(** X1: [main] stops at a failure of discovery, filtering or batching: the
    exception leaves [main] after the options have been printed, with the
    store as it was and no package touched. *)
Theorem main_aborts_before_any_package argv w e :
  getPackages (fs w) __dirname = inl e
  ∨ (∃ packages,
       getPackages (fs w) __dirname = inr packages ∧
       (filterPackages packages (js_get argv "scope") (js_get argv "ignore")
          false = inl e
        ∨ ∃ filtered,
            filterPackages packages (js_get argv "scope")
              (js_get argv "ignore") false = inr filtered ∧
            batchPackages filtered = inl e)) →
  main argv w
  = (mkWorld (fs w) (events w ++ [ConsoleLog [JStr "ARGV:"; argv]]), inl e).
Proof.
  intros Hfail. apply main_sort_fails.
  unfold getSortedPackages, bind, read_fs, lift, ret.
  destruct Hfail as [-> | (packages & -> & [-> | (filtered & -> & ->)])];
    done.
Qed.

(** X2: When every sorted package has a build of its own, [main] prints the
    options and then one notice per package, in order, and does nothing
    else; with no package at all it only prints the options. *)
Theorem main_only_notices_when_all_skipped argv w pkgs :
  getSortedPackages (js_get argv "scope") (js_get argv "ignore") w
  = (w, inr pkgs) →
  Forall (fun p => skipped p = true) pkgs →
  main argv w
  = (mkWorld (fs w)
       (events w ++ ConsoleLog [JStr "ARGV:"; argv] :: map skip_notice pkgs),
     inr tt).
Proof.
  intros Hsorted Hall. rewrite (main_run _ _ _ Hsorted).
  destruct (array_map_all_skipped argv pkgs (after_argv_log argv w) Hall)
    as [res ->].
  cbn [fs events after_argv_log]. by rewrite <- app_assoc.
Qed.

(** C3, as the code has it: for a package that is not skipped, the
    callback enters the copy of the root README.md and LICENSE exactly when
    the package has no README.md (LICENSE is not looked at); when it then
    returns normally, both copies are among the events it added.  After a
    run of [main] that returned normally, over packages whose README.md and
    LICENSE paths are pairwise distinct files, distinct from the root's,
    every package that is not skipped and had no README.md holds the content
    of the root README.md and of the root LICENSE, an earlier LICENSE of its
    own being overwritten. *)
Theorem shared_files_follow_readme argv :
  (∀ p w,
     skipped p = false →
     (copy_entered argv p w ↔ fs w !! readme_key p = None)) ∧
  (∀ p w,
     skipped p = false →
     fs w !! readme_key p = None →
     (build_package argv p w).2 = inr tt →
     ∀ e, e ∈ shared_copies p →
          e ∈ drop (length (events w)) (events (build_package argv p w).1)) ∧
  (∀ w w' pkgs,
     getSortedPackages (js_get argv "scope") (js_get argv "ignore") w
     = (w, inr pkgs) →
     main argv w = (w', inr tt) →
     NoDup (root_readme :: root_license :: flat_map shared_keys pkgs) →
     ∀ p, p ∈ pkgs → skipped p = false → fs w !! readme_key p = None →
       is_Some (fs w !! root_readme) ∧
       is_Some (fs w !! root_license) ∧
       fs w' !! readme_key p = fs w !! root_readme ∧
       fs w' !! license_key p = fs w !! root_license).
Proof.
  split; [|split].
  - intros p w Hskip. unfold copy_entered. split.
    + intros Hentered. destruct (fs w !! readme_key p) as [c|] eqn:Hreadme;
        [exfalso|done].
      rewrite build_package_readme_present in Hentered
        by (done || by rewrite Hreadme).
      cbn [fst snd events] in Hentered. rewrite drop_app_length in Hentered.
      destruct Hentered as [Hin|?]; [|done].
      pose proof (build_trace_no_copy argv (toJSON p) (base_path p) (fs w))
        as Hnocopy.
      rewrite Forall_forall in Hnocopy. by specialize (Hnocopy _ Hin).
    + intros Hnone.
      destruct (build_package_readme_absent argv p w Hskip Hnone)
        as [(_ & ->) | [(c1 & _ & _ & ->) | (c1 & c2 & _ & _ & ->)]];
        cbn [fst snd events]; [by right | left..];
        rewrite drop_app_length; by left.
  - intros p w Hskip Hnone Hok e He.
    destruct (build_package_readme_absent argv p w Hskip Hnone)
      as [(_ & Hq) | [(c1 & _ & _ & Hq) | (c1 & c2 & _ & _ & Hq)]];
      rewrite Hq in Hok |- *; [done | done |].
    cbn [fst events]. rewrite drop_app_length. apply elem_of_app. by left.
  - intros w w' pkgs Hsorted Hmain Hdup p Hp Hskip Hnone.
    rewrite (main_run _ _ _ Hsorted) in Hmain.
    destruct (array_map (build_package argv) pkgs (after_argv_log argv w))
      as [w2 [e2|res]] eqn:Hrun; [done|]. injection Hmain as <-.
    destruct (array_map_shared_success _ _ _ _ _ Hrun Hdup)
      as (new & _ & _ & Hpost).
    by destruct (Hpost p Hp Hskip Hnone) as (_ & ? & ? & ? & ?).
Qed.

(** X3: Every copy [main] makes, in any run, normal or not, is the copy of
    the root README.md to the README.md, or of the root LICENSE to the
    LICENSE, of a sorted package that is not skipped; when the sorting
    fails it copies nothing. *)
Theorem main_copies_only_shared_files argv w w' r :
  main argv w = (w', r) →
  ∃ new,
    events w' = events w ++ new ∧
    ∀ src dest,
      CopyFileSync src dest ∈ new →
      ∃ pkgs p,
        getSortedPackages (js_get argv "scope") (js_get argv "ignore") w
        = (w, inr pkgs) ∧
        p ∈ pkgs ∧ skipped p = false ∧
        CopyFileSync src dest ∈ shared_copies p.
Proof.
  intros Hmain.
  destruct (getSortedPackages_world (js_get argv "scope")
              (js_get argv "ignore") w) as [[e|pkgs] Hsorted].
  { rewrite (main_sort_fails _ _ _ Hsorted) in Hmain.
    injection Hmain as <- <-. eexists [_]. split; [done|].
    intros src dest Hin. apply list_elem_of_singleton in Hin. done. }
  rewrite (main_run _ _ _ Hsorted) in Hmain.
  destruct (array_map (build_package argv) pkgs (after_argv_log argv w))
    as [w2 r2] eqn:Hrun.
  destruct (array_map_copy_events _ _ _ _ _ Hrun) as (new & Hev & Hcopies).
  assert (w' = w2) as -> by (by destruct r2; injection Hmain as <- _).
  exists (ConsoleLog [JStr "ARGV:"; argv] :: new). split.
  { by rewrite Hev; cbn [events after_argv_log]; rewrite <- app_assoc. }
  intros src dest Hin. apply elem_of_cons in Hin as [?|Hin]; [done|].
  destruct (Hcopies _ _ Hin) as (p & Hp & Hshared).
  unfold unskipped in Hp. apply list_elem_of_filter in Hp as [Hskip Hp].
  by exists pkgs, p.
Qed.

(** X4: When every sorted package that is not skipped already has its
    README.md, [main] returns normally, leaves the store as it was and
    copies nothing; the root files are not needed. *)
Theorem main_copies_nothing_when_readmes_exist argv w pkgs :
  getSortedPackages (js_get argv "scope") (js_get argv "ignore") w
  = (w, inr pkgs) →
  (∀ p, p ∈ unskipped pkgs → is_Some (fs w !! readme_key p)) →
  ∃ w' new,
    main argv w = (w', inr tt) ∧
    fs w' = fs w ∧
    events w' = events w ++ new ∧
    Forall (fun e => is_copy e = false) new.
Proof.
  intros Hsorted Hall.
  destruct (array_map_readmes_present argv pkgs (after_argv_log argv w) Hall)
    as (w' & res & new & Hrun & Hfs & Hev & Hnocopy).
  exists w', (ConsoleLog [JStr "ARGV:"; argv] :: new).
  split; [by rewrite (main_run _ _ _ Hsorted), Hrun|].
  split; [done|].
  split; [by rewrite Hev; cbn [events after_argv_log]; rewrite <- app_assoc|].
  by constructor.
Qed.

(** X5: A second run after a successful one, over the same sorted packages,
    returns normally, leaves the store as the first run left it and copies
    nothing. *)
Theorem second_run_copies_nothing argv w w1 pkgs :
  getSortedPackages (js_get argv "scope") (js_get argv "ignore") w
  = (w, inr pkgs) →
  main argv w = (w1, inr tt) →
  getSortedPackages (js_get argv "scope") (js_get argv "ignore") w1
  = (w1, inr pkgs) →
  ∃ w2 new,
    main argv w1 = (w2, inr tt) ∧
    fs w2 = fs w1 ∧
    events w2 = events w1 ++ new ∧
    Forall (fun e => is_copy e = false) new.
Proof.
  intros Hsorted Hmain Hsorted1.
  rewrite (main_run _ _ _ Hsorted) in Hmain.
  destruct (array_map (build_package argv) pkgs (after_argv_log argv w))
    as [w' [e|res]] eqn:Hrun; [done|]. injection Hmain as ->.
  destruct (array_map_effect _ _ _ _ _ Hrun)
    as (new0 & _ & _ & _ & _ & Hsucc & _).
  destruct (Hsucc res eq_refl) as [Hreadmes _].
  destruct (array_map_readmes_present argv pkgs (after_argv_log argv w1)
              Hreadmes)
    as (w2 & res2 & new & Hrun2 & Hfs & Hev & Hnocopy).
  exists w2, (ConsoleLog [JStr "ARGV:"; argv] :: new).
  split; [by rewrite (main_run _ _ _ Hsorted1), Hrun2|].
  split; [done|].
  split; [by rewrite Hev; cbn [events after_argv_log]; rewrite <- app_assoc|].
  by constructor.
Qed.

(** X8: After a run that returned normally, every sorted package that is not
    skipped has a README.md. *)
Theorem successful_run_leaves_readmes argv w w' pkgs :
  getSortedPackages (js_get argv "scope") (js_get argv "ignore") w
  = (w, inr pkgs) →
  main argv w = (w', inr tt) →
  ∀ p, p ∈ pkgs → skipped p = false → is_Some (fs w' !! readme_key p).
Proof.
  intros Hsorted Hmain p Hp Hskip.
  rewrite (main_run _ _ _ Hsorted) in Hmain.
  destruct (array_map (build_package argv) pkgs (after_argv_log argv w))
    as [w2 [e2|res]] eqn:Hrun; [done|]. injection Hmain as <-.
  destruct (array_map_effect _ _ _ _ _ Hrun)
    as (new0 & _ & _ & _ & _ & Hsucc & _).
  destruct (Hsucc res eq_refl) as [Hreadmes _].
  apply Hreadmes. unfold unskipped. by apply list_elem_of_filter.
Qed.

(** X9: In every run, normal or not, [main] attaches no handler to a promise
    and prints nothing on the error console; so each build it has issued
    that rejects ends as an unhandled rejection. *)
Theorem main_never_handles_a_build argv w w' r :
  main argv w = (w', r) →
  ∃ new,
    events w' = events w ++ new ∧
    Forall (fun e => is_handler e = false ∧ is_console_error e = false) new ∧
    ∀ settle,
      unhandled_rejections settle (events w')
      = unhandled_rejections settle (events w) ++
        omap (rejection settle)
          (map (fun opts => mkPromise opts false) (builds_of new)).
Proof.
  intros Hmain.
  assert (∃ new, events w' = events w ++ new ∧
                 Forall (fun e => is_quiet e = true) new)
    as (new & Hev & Hquiet).
  { destruct (getSortedPackages_world (js_get argv "scope")
                (js_get argv "ignore") w) as [[e|pkgs] Hsorted].
    - rewrite (main_sort_fails _ _ _ Hsorted) in Hmain.
      injection Hmain as <- <-. eexists [_]. split; [done|].
      by repeat constructor.
    - rewrite (main_run _ _ _ Hsorted) in Hmain.
      destruct (array_map (build_package argv) pkgs (after_argv_log argv w))
        as [w2 r2] eqn:Hrun.
      destruct (array_map_effect _ _ _ _ _ Hrun)
        as (new & Hev & Hquiet & _).
      assert (w' = w2) as -> by (by destruct r2; injection Hmain as <- _).
      exists (ConsoleLog [JStr "ARGV:"; argv] :: new). split.
      + by rewrite Hev; cbn [events after_argv_log]; rewrite <- app_assoc.
      + by constructor. }
  assert (Forall (fun e => is_handler e = false ∧ is_console_error e = false)
            new) as Hsplit.
  { eapply Forall_impl; [exact Hquiet|]. intros e He. unfold is_quiet in He.
    apply andb_true_iff in He as [He1 He2].
    by rewrite negb_true_iff in He1, He2. }
  exists new. split; [done|]. split; [done|]. intros settle.
  rewrite Hev. apply unhandled_rejections_app.
  eapply Forall_impl; [exact Hsplit|]. by intros e [? _].
Qed.


End Runs.

(** ** Smaller parts: the pattern, the skip test, the flattening *)

Section Parts.
Context `{Host}.

Lemma replace_backslashes_clean s :
  has_backslash (replace_backslashes s) = false.
Proof.
  induction s as [|c s IH]; simpl; [done|]. rewrite IH, orb_false_r.
  by destruct (Ascii.eqb c "\") eqn:Hc.
Qed.

Lemma replace_backslashes_id s :
  has_backslash s = false → replace_backslashes s = s.
Proof.
  induction s as [|c s IH]; simpl; [done|]. intros Hs.
  apply orb_false_iff in Hs as [-> Hs]. by rewrite IH.
Qed.

(** X13: The replacement of backslashes keeps the length of a string and every
    character that is not a backslash, leaves no backslash, changes nothing
    in a string without backslash, and so is idempotent; on a resolved path
    without backslash the pattern handed to [glob.sync] is the resolved path
    itself. *)
Theorem replace_backslashes_normalises s :
  String.length (replace_backslashes s) = String.length s ∧
  has_backslash (replace_backslashes s) = false ∧
  replace_backslashes (replace_backslashes s) = replace_backslashes s ∧
  (∀ n c, String.get n s = Some c →
          String.get n (replace_backslashes s)
          = Some (if Ascii.eqb c "\"%char then "/"%char else c)) ∧
  (∀ basePath,
     has_backslash (path_resolve [basePath; "src"; "**"; "**.ts"]) = false →
     entry_pattern basePath = path_resolve [basePath; "src"; "**"; "**.ts"]).
Proof.
  split; [|split; [|split; [|split]]].
  - induction s as [|c s IH]; simpl; [done|]. by rewrite IH.
  - apply replace_backslashes_clean.
  - apply replace_backslashes_id, replace_backslashes_clean.
  - induction s as [|c s IH]; intros n c' Hget; [done|].
    destruct n as [|n]; simpl in *.
    + by injection Hget as ->.
    + by apply IH.
  - intros basePath Hclean. by apply replace_backslashes_id.
Qed.

(** X14: The callback skips a package exactly when the manifest's [scripts] is
    an object whose [build] is truthy; a manifest without [scripts], with a
    [scripts] that is not an object, without [build], or with an empty
    [build] is built. *)
Theorem skipped_iff_truthy_build pkg :
  skipped pkg = true ↔
  ∃ fields,
    js_get (toJSON pkg) "scripts" = JObj fields ∧
    truthy (assoc "build" fields) = true.
Proof.
  unfold skipped. split.
  - destruct (js_get (toJSON pkg) "scripts") as [| | | | |xs|fields];
      simpl; try done.
    intros Hbuild. by exists fields.
  - intros (fields & -> & Hbuild). done.
Qed.

(** X15: The flattening keeps the batches in order and each batch in its own
    order: the [m]-th package of batch [k] sits at position [m] after all
    the packages of the batches before [k]; nothing is added or lost in
    number. *)
Theorem flatten_position batches k batch m A :
  batches !! k = Some batch →
  batch !! m = Some A →
  flatten batches !! (offset k batches + m) = Some A ∧
  length (flatten batches) = list_sum (map length batches).
Proof.
  rewrite flatten_concat. intros Hk Hm. split; [|apply length_concat].
  revert k Hk. induction batches as [|b bs IH]; intros k Hk.
  { by rewrite lookup_nil in Hk. }
  destruct k as [|k]; simpl in Hk.
  - injection Hk as ->. unfold offset. simpl. by apply lookup_app_l_Some.
  - unfold offset in *. simpl. rewrite length_app.
    rewrite lookup_app_r by lia.
    replace (length b + length (concat (take k bs)) + m - length b)
      with (length (concat (take k bs)) + m) by lia.
    by apply IH.
Qed.

End Parts.

(** ** The shape of the builds and the rebuild hook over time *)

Section Builds.
Context `{Host}.

Lemma job_builds_shape argv job :
  Forall (build_shape argv) (job_builds argv job).
Proof.
  unfold job_builds, build_shape.
  apply Forall_cons. split; [|apply Forall_cons; split; [|done]].
  - split; [done|]. split; [done|]. by left.
  - split; [done|]. split; [done|]. right.
    split; [done|]. split; [done|]. simpl.
    unfold js_and. destruct (truthy (js_get argv "watch")); [|done].
    by eexists.
Qed.

Lemma array_map_builds argv pkgs :
  ∀ w w' r,
    array_map (build_package argv) pkgs w = (w', r) →
    ∃ new,
      events w' = events w ++ new ∧
      Forall (build_shape argv) (builds_of new).
Proof.
  induction pkgs as [|q rest IH]; intros w w' r Hrun.
  { injection Hrun as <- <-. exists []. by rewrite app_nil_r. }
  assert (∀ w1 r1, build_package argv q w = (w1, r1) →
            ∃ new1, events w1 = events w ++ new1 ∧
                    Forall (build_shape argv) (builds_of new1)) as Hstep.
  { intros w1 r1 Hq.
    destruct (build_package_effect _ _ _ _ _ Hq)
      as (new1 & Hev1 & _ & _ & _ & Hskipped & _ & Hok & Hfail & _).
    exists new1. split; [done|].
    destruct r1 as [e|[]].
    - destruct (Hfail e eq_refl) as (_ & _ & _ & -> & _). done.
    - destruct (skipped q) eqn:Hskip.
      + destruct (Hskipped eq_refl) as (_ & -> & _). done.
      + destruct (Hok eq_refl eq_refl) as (_ & eps & -> & _).
        apply job_builds_shape. }
  destruct (array_map_cons_inv _ _ _ _ _ _ Hrun)
    as [(e & Hq & ->) | (w1 & [] & Hq & Hrest)].
  - by apply (Hstep _ _ Hq).
  - destruct (Hstep _ _ Hq) as (new1 & Hev1 & Hshape1).
    assert (∃ r2, array_map (build_package argv) rest w1 = (w', r2))
      as [r2 Hrun2].
    { destruct Hrest as [(e & ? & _) | (ys & ? & _)]; by eexists. }
    destruct (IH _ _ _ Hrun2) as (new2 & Hev2 & Hshape2).
    exists (new1 ++ new2). split; [by rewrite Hev2, Hev1, app_assoc|].
    unfold builds_of in *. rewrite omap_app. by apply Forall_app.
Qed.

(** X11: Every build [main] issues, in any run, is for the node platform with
    an external source map, and is either a CommonJS build, with no
    extension map and never a rebuild hook, or an ES-module build that maps
    [.js] to [.mjs]; the ES-module build carries a hook exactly when
    [argv.watch] is truthy, and the hook holds the entry points and the
    output directory of that very build. *)
Theorem every_build_has_its_shape argv w w' r :
  main argv w = (w', r) →
  ∃ new,
    events w' = events w ++ new ∧
    Forall (build_shape argv) (builds_of new).
Proof.
  intros Hmain.
  destruct (getSortedPackages_world (js_get argv "scope")
              (js_get argv "ignore") w) as [[e|pkgs] Hsorted].
  - rewrite (main_sort_fails _ _ _ Hsorted) in Hmain.
    injection Hmain as <- <-. by eexists [_].
  - rewrite (main_run _ _ _ Hsorted) in Hmain.
    destruct (array_map (build_package argv) pkgs (after_argv_log argv w))
      as [w2 r2] eqn:Hrun.
    destruct (array_map_builds _ _ _ _ _ Hrun) as (new & Hev & Hshape).
    assert (w' = w2) as -> by (by destruct r2; injection Hmain as <- _).
    exists (ConsoleLog [JStr "ARGV:"; argv] :: new). split; [|done].
    by rewrite Hev; cbn [events after_argv_log]; rewrite <- app_assoc.
Qed.

(** X12: A rebuild hook called over any sequence of rebuild results never
    fails, never changes the store, and issues no build and no copy: it
    emits the declarations once per result without error, always for the
    program of the first emission, and prints each error, in order. *)
Theorem rebuilds_emit_once_per_success h errs :
  ∀ w,
    ∃ new,
      array_forEach (onRebuild h) errs w
      = (mkWorld (fs w) (events w ++ new), inr tt) ∧
      emitted_programs new
      = map (fun _ => mkProgram (hook_entryPoints h)
                        (declaration_options (hook_outdir h)))
            (filter (fun err => truthy err = false) errs) ∧
      printed_errors new = filter (fun err => truthy err = true) errs ∧
      builds_of new = [] ∧
      Forall (fun e => is_copy e = false) new.
Proof.
  induction errs as [|err errs IH]; intros w.
  { exists []. destruct w as [files evs]. simpl. by rewrite app_nil_r. }
  assert (∃ new1,
            onRebuild h err w = (mkWorld (fs w) (events w ++ new1), inr tt) ∧
            emitted_programs new1
            = (if truthy err then []
               else [mkProgram (hook_entryPoints h)
                       (declaration_options (hook_outdir h))]) ∧
            printed_errors new1 = (if truthy err then [err] else []) ∧
            builds_of new1 = [] ∧
            Forall (fun e => is_copy e = false) new1)
    as (new1 & Hstep & Hp1 & He1 & Hb1 & Hc1).
  { unfold onRebuild. destruct (truthy err) eqn:Herr.
    - exists [ConsoleError err]. split; [done|]. by repeat constructor.
    - eexists. split; [apply emitTSDeclaration_run|]. cbn [fs].
      split; [apply declaration_trace_programs|]. split.
      { unfold declaration_trace, printed_errors. rewrite omap_app. simpl.
        induction (ts_getPreEmitDiagnostics _ _ ++ ts_emit _ _)
          as [|d ds IHd]; simpl; auto. }
      split; [apply declaration_trace_quiet|].
      apply declaration_trace_no_copy. }
  destruct (IH (mkWorld (fs w) (events w ++ new1)))
    as (new2 & Hrun & Hp2 & He2 & Hb2 & Hc2).
  exists (new1 ++ new2). split.
  { simpl. unfold bind. rewrite Hstep, Hrun. cbn [fs events].
    by rewrite <- app_assoc. }
  unfold emitted_programs, printed_errors, builds_of in *.
  rewrite !omap_app, Hp1, Hp2, He1, He2, Hb1, Hb2.
  split; [|split; [|split; [done | by apply Forall_app]]].
  - destruct (truthy err) eqn:Herr.
    + by rewrite filter_cons_False by (by rewrite Herr).
    + by rewrite filter_cons_True by done.
  - destruct (truthy err) eqn:Herr.
    + by rewrite filter_cons_True by done.
    + by rewrite filter_cons_False by (by rewrite Herr).
Qed.

End Builds.

(** ** The theorems at work on the reference workspace *)

(** The reference workspace: [secret] is private and dropped; the rest come
    out with [core] first and [server] last. *)
Lemma getSortedPackages_dependency_ordered_witness :
  @batch_order_contract (Reference.host Reference.workspace [] []) ∧
  @getSortedPackages (Reference.host Reference.workspace [] [])
     JUndefined JUndefined Reference.world0
  = (Reference.world0,
     inr [Reference.core; Reference.driver; Reference.server]) ∧
  dependency_ordered [Reference.core; Reference.driver; Reference.server].
Proof.
  split; [apply ReferenceFacts.ref_batch_order|].
  split; [vm_compute; reflexivity|].
  apply (@getSortedPackages_dependency_ordered
           (Reference.host Reference.workspace [] [])
           JUndefined JUndefined Reference.world0 Reference.world0).
  - apply ReferenceFacts.ref_batch_order.
  - vm_compute; reflexivity.
Defined.

(** With [--scope=*r*ver --ignore=driver] on the reference workspace, only
    [server] is processed: [driver] matches the scope but is ignored. *)
Lemma processed_packages_exactly_kept_witness :
  @getSortedPackages Reference.h0 (JStr "*r*ver") (JStr "driver")
     Reference.world0
  = (Reference.world0, inr [Reference.server]) ∧
  (Reference.driver ∈ [Reference.server] ↔
   Reference.driver ∈ Reference.workspace ∧
   @in_scope_b Reference.h0 (JStr "*r*ver") Reference.driver = true ∧
   @matches_b Reference.h0 (JStr "driver") Reference.driver = false ∧
   private Reference.driver = false).
Proof.
  split; [vm_compute; reflexivity|].
  apply (@processed_packages_exactly_kept Reference.h0
           (JObj [("scope", JStr "*r*ver"); ("ignore", JStr "driver")])
           Reference.world0 Reference.workspace [Reference.server]).
  - apply ReferenceFacts.ref_filter.
  - apply ReferenceFacts.ref_batch_partition.
  - reflexivity.
  - vm_compute; reflexivity.
Defined.

(** [core] has its own LICENSE and no README.md: the claim "copied exactly
    when neither file exists" would have no copy here, yet both root files
    are copied and the package's LICENSE is overwritten. *)
Lemma copy_guard_ignores_license :
  @skipped Reference.core = false ∧
  fs Reference.world_own_license !! @license_key Reference.h0 Reference.core
  = Some "Apache-2.0" ∧
  fs (@build_package Reference.h0 (JObj []) Reference.core
        Reference.world_own_license).1
    !! @license_key Reference.h0 Reference.core
  = Some "MIT" ∧
  ¬ (@copies_something Reference.h0 (JObj []) Reference.core
       Reference.world_own_license
     ↔ fs Reference.world_own_license
         !! @readme_key Reference.h0 Reference.core = None ∧
       fs Reference.world_own_license
         !! @license_key Reference.h0 Reference.core = None).
Proof.
  split; [reflexivity|]. split; [vm_compute; reflexivity|].
  split; [vm_compute; reflexivity|].
  intros [Hcopies _].
  assert (@copies_something Reference.h0 (JObj []) Reference.core
            Reference.world_own_license) as Hc.
  { exists "/repo/README.md", "packages/core/README.md".
    vm_compute. constructor. }
  destruct (Hcopies Hc) as [_ Hlicense].
  vm_compute in Hlicense. discriminate.
Qed.

Lemma custom_build_is_skipped_witness :
  @build_package Reference.h0 (JObj []) Reference.driver Reference.world0
  = (mkWorld (fs Reference.world0)
       (events Reference.world0 ++
        [ConsoleLog [js_get (toJSON Reference.driver) "name";
                     JStr "has custom build! skipping default build."]]),
     inr tt).
Proof.
  apply (@custom_build_is_skipped Reference.h0 (JObj []) Reference.driver
           [("build", JStr "tsc")] "tsc" Reference.world0).
  - reflexivity.
  - reflexivity.
  - discriminate.
Defined.

Lemma existing_readme_means_no_copy_witness :
  fs (@build_package Reference.h0 (JObj []) Reference.core
        Reference.world_own_readme).1
  = fs Reference.world_own_readme
  ∧ fs Reference.world_own_readme
      !! @license_key Reference.h0 Reference.core = None.
Proof.
  destruct (@existing_readme_means_no_copy Reference.h0 (JObj [])
              Reference.core Reference.world_own_readme) as [Hrun _].
  - reflexivity.
  - vm_compute. by eexists.
  - rewrite Hrun. split; [reflexivity | vm_compute; reflexivity].
Defined.

Lemma missing_shared_file_aborts_run_witness :
  @main Reference.h0 (JObj []) Reference.world_no_license
  = (mkWorld
       (<["/repo/packages/core/README.md" := "# colyseus"]>
          (fs Reference.world_no_license))
       [ConsoleLog [JStr "ARGV:"; JObj []];
        CopyFileSync "/repo/README.md" "packages/core/README.md"],
     inl (ENOENT "copyfile" "/repo/LICENSE" "packages/core/LICENSE")).
Proof.
  destruct (@missing_shared_file_aborts_run Reference.h0 (JObj [])
              Reference.world_no_license [] Reference.core
              [Reference.driver; Reference.server]
              (@after_argv_log (JObj []) Reference.world_no_license) [])
    as [[Hnone _] | (c1 & Hc1 & Hmain)].
  - vm_compute; reflexivity.
  - reflexivity.
  - reflexivity.
  - vm_compute; reflexivity.
  - right. vm_compute; reflexivity.
  - vm_compute. discriminate.
  - vm_compute in Hnone. discriminate.
  - rewrite Hmain. vm_compute in Hc1. injection Hc1 as <-.
    vm_compute; reflexivity.
Defined.



Lemma watch_registers_rebuild_hook_witness :
  ∃ esm h,
    EsbuildBuild esm
    ∈ events (@build_package Reference.h0 Reference.watching Reference.core
                Reference.world0).1 ∧
    format esm = "esm" ∧
    watch esm = WatchHooks h ∧
    @onRebuild Reference.h0 h (JStr "build failed") Reference.world0
    = (mkWorld (fs Reference.world0) [ConsoleError (JStr "build failed")],
       inr tt) ∧
    @onRebuild Reference.h0 h JNull Reference.world0
    = @emitTSDeclaration Reference.h0 (toJSON Reference.core)
        ["/repo/packages/core/src/util/id.ts";
         "/repo/packages/core/src/index.ts"]
        "packages/core/build" Reference.world0.
Proof.
  destruct (@watch_registers_rebuild_hook Reference.h0 Reference.watching
              Reference.core Reference.world0
              (@copy_shared_files Reference.h0
                 (@base_path Reference.h0 Reference.core)
                 Reference.world0).1)
    as (w' & esm & h & Hrun & Hin & Hformat & Hwatch & Hok & Herr).
  - reflexivity.
  - vm_compute; reflexivity.
  - reflexivity.
  - exists esm, h. rewrite Hrun. split; [exact Hin|].
    split; [exact Hformat|]. split; [exact Hwatch|]. split.
    + by rewrite Herr.
    + destruct (Hok JNull Reference.world0) as [-> _]; [reflexivity|].
      f_equal.
Defined.

Lemma bundles_issued_then_declarations_emitted_witness :
  (@build_package Reference.h0 (JObj []) Reference.core Reference.world0).2
  = inr tt ∧
  unhandled_rejections (fun _ => Rejected (JStr "build failed"))
    (events (@build_package Reference.h0 (JObj []) Reference.core
               Reference.world0).1)
  = [JStr "build failed"; JStr "build failed"].
Proof.
  destruct (@bundles_issued_then_declarations_emitted Reference.h0 (JObj [])
              Reference.core Reference.world0
              (@copy_shared_files Reference.h0
                 (@base_path Reference.h0 Reference.core)
                 Reference.world0).1)
    as (Hrun & _ & Hone_shot).
  - reflexivity.
  - vm_compute; reflexivity.
  - rewrite Hrun. split; [reflexivity|].
    destruct Hone_shot as (_ & _ & _ & Hsettle); [reflexivity|].
    cbn [fst events]. rewrite Hsettle. vm_compute; reflexivity.
Defined.

(** Two diagnostics on the reference host: the one with a source file is
    printed with file, line and column, the other as its message. *)
Example declaration_emission_prints_diagnostics :
  events
    (@emitTSDeclaration
       (Reference.host Reference.workspace
          [mkDiagnostic (Some (mkSourceFile "src/index.ts" "export {}")) 7
             (MessageString "Cannot find name 'x'.")]
          [mkDiagnostic None 0 (MessageString "Cannot write file.")])
       (toJSON Reference.core) ["src/index.ts"] "build" Reference.world0).1
  = [ConsoleLog [JStr "Generating .d.ts files for..."; JStr "core"];
     TsCreateProgram
       (mkProgram ["src/index.ts"] (declaration_options "build"));
     TsEmit (mkProgram ["src/index.ts"] (declaration_options "build"));
     ConsoleLog [JStr "src/index.ts (1,8): Cannot find name 'x'."];
     ConsoleLog [JStr "Cannot write file."]].
Proof. vm_compute; reflexivity. Qed.

(** ** Whole runs on the reference workspaces *)

Lemma main_aborts_before_any_package_witness :
  @main Reference.h_cycle (JObj []) Reference.world0
  = (mkWorld (fs Reference.world0) [ConsoleLog [JStr "ARGV:"; JObj []]],
     inl CycleError).
Proof.
  apply (@main_aborts_before_any_package Reference.h_cycle (JObj [])
           Reference.world0 CycleError).
  right. exists [Reference.ping; Reference.pong]. split; [reflexivity|].
  right. exists [Reference.ping; Reference.pong].
  split; vm_compute; reflexivity.
Defined.

Lemma main_only_notices_when_all_skipped_witness :
  @main Reference.h_custom (JObj []) Reference.world0
  = (mkWorld (fs Reference.world0)
       [ConsoleLog [JStr "ARGV:"; JObj []];
        ConsoleLog [JStr "driver";
                    JStr "has custom build! skipping default build."]],
     inr tt).
Proof.
  apply (@main_only_notices_when_all_skipped Reference.h_custom (JObj [])
           Reference.world0 [Reference.driver]).
  - vm_compute; reflexivity.
  - by repeat constructor.
Defined.

Lemma main_copies_nothing_when_readmes_exist_witness :
  ∃ w' new,
    @main Reference.h0 (JObj []) Reference.world_readmes_only = (w', inr tt) ∧
    fs w' = fs Reference.world_readmes_only ∧
    events w' = events Reference.world_readmes_only ++ new ∧
    Forall (fun e => is_copy e = false) new.
Proof.
  apply (@main_copies_nothing_when_readmes_exist Reference.h0 (JObj [])
           Reference.world_readmes_only
           [Reference.core; Reference.driver; Reference.server]).
  - vm_compute; reflexivity.
  - apply Forall_forall.
    apply (proj1 (bool_decide_eq_true _)). vm_compute; reflexivity.
Defined.

Lemma second_run_copies_nothing_witness :
  ∃ w2 new,
    @main Reference.h0 (JObj [])
       (@main Reference.h0 (JObj []) Reference.world0).1
    = (w2, inr tt) ∧
    fs w2 = fs (@main Reference.h0 (JObj []) Reference.world0).1 ∧
    events w2
    = events (@main Reference.h0 (JObj []) Reference.world0).1 ++ new ∧
    Forall (fun e => is_copy e = false) new.
Proof.
  apply (@second_run_copies_nothing Reference.h0 (JObj []) Reference.world0
           (@main Reference.h0 (JObj []) Reference.world0).1
           [Reference.core; Reference.driver; Reference.server]).
  - vm_compute; reflexivity.
  - vm_compute; reflexivity.
  - vm_compute; reflexivity.
Defined.

Lemma successful_run_leaves_readmes_witness :
  is_Some (fs (@main Reference.h0 (JObj []) Reference.world0).1
             !! @readme_key Reference.h0 Reference.server).
Proof.
  apply (@successful_run_leaves_readmes Reference.h0 (JObj [])
           Reference.world0
           (@main Reference.h0 (JObj []) Reference.world0).1
           [Reference.core; Reference.driver; Reference.server]).
  - vm_compute; reflexivity.
  - vm_compute; reflexivity.
  - set_solver.
  - reflexivity.
Defined.

Lemma main_never_handles_a_build_witness :
  ∃ new,
    events (@main Reference.h0 (JObj []) Reference.world_no_license).1
    = events Reference.world_no_license ++ new ∧
    Forall (fun e => is_handler e = false ∧ is_console_error e = false) new ∧
    ∀ settle,
      unhandled_rejections settle
        (events (@main Reference.h0 (JObj []) Reference.world_no_license).1)
      = unhandled_rejections settle (events Reference.world_no_license) ++
        omap (rejection settle)
          (map (fun opts => mkPromise opts false) (builds_of new)).
Proof.
  apply (@main_never_handles_a_build Reference.h0 (JObj [])
           Reference.world_no_license
           (@main Reference.h0 (JObj []) Reference.world_no_license).1
           (@main Reference.h0 (JObj []) Reference.world_no_license).2).
  apply surjective_pairing.
Defined.


Lemma flatten_position_witness :
  flatten [[Reference.core]; [Reference.driver; Reference.secret];
           [Reference.server]] !! 3
  = Some Reference.server
  ∧ length (flatten [[Reference.core];
                     [Reference.driver; Reference.secret];
                     [Reference.server]]) = 4.
Proof.
  apply (flatten_position
           [[Reference.core]; [Reference.driver; Reference.secret];
            [Reference.server]] 2 [Reference.server] 0 Reference.server);
    reflexivity.
Defined.

Lemma every_build_has_its_shape_witness :
  ∃ new,
    events (@main Reference.h0 Reference.watching Reference.world0).1
    = events Reference.world0 ++ new ∧
    Forall (build_shape Reference.watching) (builds_of new).
Proof.
  apply (@every_build_has_its_shape Reference.h0 Reference.watching
           Reference.world0
           (@main Reference.h0 Reference.watching Reference.world0).1
           (@main Reference.h0 Reference.watching Reference.world0).2).
  apply surjective_pairing.
Defined.

Lemma shared_files_follow_readme_witness :
  (@copy_entered Reference.h0 (JObj []) Reference.core
     Reference.world_no_license
   ↔ fs Reference.world_no_license
       !! @readme_key Reference.h0 Reference.core = None) ∧
  fs (@main Reference.h0 (JObj []) Reference.world0).1
    !! @readme_key Reference.h0 Reference.server
  = fs Reference.world0 !! @root_readme Reference.h0 ∧
  fs (@main Reference.h0 (JObj []) Reference.world0).1
    !! @license_key Reference.h0 Reference.server
  = fs Reference.world0 !! @root_license Reference.h0.
Proof.
  destruct (@shared_files_follow_readme Reference.h0 (JObj []))
    as (Hstep & _ & Hrun).
  split; [by apply Hstep|].
  destruct (Hrun Reference.world0
              (@main Reference.h0 (JObj []) Reference.world0).1
              [Reference.core; Reference.driver; Reference.server])
    with (p := Reference.server) as (_ & _ & Hreadme & Hlicense).
  - vm_compute; reflexivity.
  - vm_compute; reflexivity.
  - apply (proj1 (bool_decide_eq_true _)). vm_compute; reflexivity.
  - repeat constructor.
  - reflexivity.
  - vm_compute; reflexivity.
  - split; [exact Hreadme | exact Hlicense].
Defined.

Lemma main_copies_only_shared_files_witness :
  ∃ new,
    events (@main Reference.h0 (JObj []) Reference.world_no_license).1
    = events Reference.world_no_license ++ new ∧
    ∀ src dest,
      CopyFileSync src dest ∈ new →
      ∃ pkgs p,
        @getSortedPackages Reference.h0 (js_get (JObj []) "scope")
           (js_get (JObj []) "ignore") Reference.world_no_license
        = (Reference.world_no_license, inr pkgs) ∧
        p ∈ pkgs ∧ skipped p = false ∧
        CopyFileSync src dest ∈ @shared_copies Reference.h0 p.
Proof.
  apply (@main_copies_only_shared_files Reference.h0 (JObj [])
           Reference.world_no_license
           (@main Reference.h0 (JObj []) Reference.world_no_license).1
           (@main Reference.h0 (JObj []) Reference.world_no_license).2).
  apply surjective_pairing.
Defined.
